(** * run_pointnet: training and evaluation driver of a point-cloud
      segmentation network

    A shallow embedding of [run_pointnet.py].  The script is glue around
    three external libraries (the tensor framework, the metrics library
    and the plotting library); what the script itself does is kept as it
    is written: the order of the calls, the accumulators of the
    evaluation pass, the flattening, the mean of the losses, the
    visualisation loop, the training loop and the option table.

    Conventions.
    - A Python float is idealised as a rational number ([Q]); a metric
      that the metrics library may report as "not a number" has type
      [number].
    - A tensor is a nested list: a batch of point clouds is
      [list (list (list Q))], per-point labels are [list (list Z)], the
      network output is [list (list (list Q))] (sample, point, class).
    - The process state touched by the script is the record [world];
      a statement sequence is a computation in the monad [M], which
      threads the world and stops at the first raised exception.

    Assumptions on the collaborators.
    - The network, the loss function, the dataset class and the
      plotting library are seen through their calls and are taken to
      return: the failures that are modelled are those of the script's
      own statements and of the documented checks of the loader, the
      arg-max, the metrics and the parser.
    - A per-batch loss is a rational number: an infinite or undefined
      float loss, and overflow of the sum, are outside the development.
    - The forward pass is a function of the parameters, the mode and
      the input: a network that draws random numbers is outside.
    - The batches of a pass are given to [evaluate_model] as a list:
      the loader is iterated, and its sampler drawn, before the call.
    - The plot calls are logged, not executed.  The plotting library
      refuses a colour argument that is neither one number per point
      nor a single number for a cloud of one point; a logged scatter
      call stands for the call being made with these arguments, not
      for its success, and the general statements about a visualisation
      assume accepted colours ([scatter_accepts]). *)

From Stdlib Require Import String Ascii.
From Stdlib Require Import List ZArith QArith Bool Lia Arith Permutation.
Import ListNotations.

Set Implicit Arguments.

(** ** Exceptions and results *)

Inductive exn : Type :=
| ZeroDivisionError
| IndexError
| ValueError
| FileNotFoundError
| RuntimeError
| AttributeError
| TypeError
| SystemExit.

Inductive result (A : Type) : Type :=
| Ok (a : A)
| Raise (e : exn).

Arguments Ok {A} a.
Arguments Raise {A} e.

(** ** Tensors as nested lists *)

Definition label := Z.
Definition cloud := list (list Q).          (* one point cloud: a 2-D array *)
Definition data := list cloud.              (* a batch of point clouds *)
Definition labels := list (list label).     (* per-sample, per-point labels *)
Definition outputs := list (list (list Q)). (* sample, point, class score *)
Definition batch := (data * labels)%type.
Definition sample := (cloud * list label)%type.

(** A value that the metrics library computes as a float: a number, or
    "not a number" (the mean of an empty array). *)
Inductive number : Type :=
| Num (q : Q)
| NaN.

Inductive device : Type := cuda | cpu.

(** ** Arg-max over the class dimension

    [torch.argmax] returns the index of the first maximal value and
    refuses a reduction over a dimension of size zero. *)

Fixpoint argmax_from (best : Q) (besti : nat) (i : nat) (l : list Q) : nat :=
  match l with
  | [] => besti
  | x :: r =>
      if Qlt_le_dec best x
      then argmax_from x i (S i) r
      else argmax_from best besti (S i) r
  end.

Definition argmax (scores : list Q) : option nat :=
  match scores with
  | [] => None
  | x :: r => Some (argmax_from x 0%nat 1%nat r)
  end.

Fixpoint traverse {A B : Type} (f : A -> option B) (l : list A) : option (list B) :=
  match l with
  | [] => Some []
  | x :: r =>
      match f x with
      | None => None
      | Some y =>
          match traverse f r with
          | None => None
          | Some ys => Some (y :: ys)
          end
      end
  end.

(** [outputs.argmax(dim=2)]: one predicted label per point. *)
Definition argmax_dim2 (o : outputs) : option labels :=
  traverse (traverse (fun scores => option_map Z.of_nat (argmax scores))) o.

(** ** The metrics library ([sklearn.metrics])

    Modelled from the library's documentation: the label set is the set
    of values that occur in the true or the predicted labels; per class,
    precision is tp / (tp + fp) and recall is tp / (tp + fn), a ratio
    with a zero denominator counting as 0; the macro average is the
    unweighted mean over the label set; accuracy is the fraction of
    positions where both lists agree.  Lists of different lengths are
    refused with [ValueError]. *)

Definition Qsum (l : list Q) : Q := fold_left Qplus l 0%Q.

Definition Qlen {A : Type} (l : list A) : Q := inject_Z (Z.of_nat (length l)).

Definition count_pairs (f : label -> label -> bool) (y_true y_pred : list label) : nat :=
  length (filter (fun p => f (fst p) (snd p)) (combine y_true y_pred)).

Definition tp_sum (c : label) (y_true y_pred : list label) : nat :=
  count_pairs (fun t p => Z.eqb t c && Z.eqb p c) y_true y_pred.

Definition pred_sum (c : label) (y_true y_pred : list label) : nat :=
  count_pairs (fun _ p => Z.eqb p c) y_true y_pred.

Definition true_sum (c : label) (y_true y_pred : list label) : nat :=
  count_pairs (fun t _ => Z.eqb t c) y_true y_pred.

Definition unique_labels (y_true y_pred : list label) : list label :=
  nodup Z.eq_dec (y_true ++ y_pred).

Definition prf_divide (numerator denominator : nat) : Q :=
  if Nat.eqb denominator 0
  then 0%Q
  else (inject_Z (Z.of_nat numerator) / inject_Z (Z.of_nat denominator))%Q.

Definition nanaverage (a : list Q) : number :=
  match a with
  | [] => NaN
  | _ => Num (Qsum a / Qlen a)
  end.

Definition precision_score (y_true y_pred : list label) : result number :=
  if Nat.eqb (length y_true) (length y_pred)
  then Ok (nanaverage
             (map (fun c => prf_divide (tp_sum c y_true y_pred) (pred_sum c y_true y_pred))
                  (unique_labels y_true y_pred)))
  else Raise ValueError.

Definition recall_score (y_true y_pred : list label) : result number :=
  if Nat.eqb (length y_true) (length y_pred)
  then Ok (nanaverage
             (map (fun c => prf_divide (tp_sum c y_true y_pred) (true_sum c y_true y_pred))
                  (unique_labels y_true y_pred)))
  else Raise ValueError.

Definition accuracy_score (y_true y_pred : list label) : result number :=
  if Nat.eqb (length y_true) (length y_pred)
  then Ok (match y_true with
           | [] => NaN
           | _ => Num (inject_Z (Z.of_nat (count_pairs Z.eqb y_true y_pred)) / Qlen y_true)
           end)
  else Raise ValueError.

(** ** What the script shows to the outside: calls into the framework,
    printed lines and plot calls *)

Inductive color_arg : Type :=
| CScalar (c : label)          (* a single label value *)
| CArray (cs : list label).    (* one label per point *)

Inductive marker : Type := marker_o | marker_x.

Record scatter_call : Type := mkScatter {
  sc_xs : list Q;
  sc_ys : list Q;
  sc_zs : list Q;
  sc_c : color_arg;
  sc_marker : marker;
  sc_alpha : Q;
  sc_label : string;
  sc_s : Z
}.

Inductive message : Type :=
| MsgModelInitialized
| MsgModel
| MsgOutputsShape (shape : list nat)
| MsgLabelsShape (shape : list nat)
| MsgLoss (loss : Q)
| MsgEpoch (epoch : Z) (loss : Q) (prec rec acc : number)
| MsgValidation (loss : Q) (prec rec acc : number)
| MsgTest (loss : Q) (prec rec acc : number).

Inductive event : Type :=
| EvTo (d : device)                          (* tensor.to(device) *)
| EvForward (training grad : bool) (x : data) (* model(x), with the flags in force *)
| EvZeroGrad
| EvBackward
| EvStep                                     (* optimizer.step() *)
| EvPrint (m : message)
| EvFigure
| EvScatter (c : scatter_call)
| EvTitle (i : nat)
| EvLegend
| EvShow.

(** ** parse_args (lines 13-26)

    The values of a parsed option and the attribute table that
    [parser.parse_args()] returns. *)

Inductive value : Type :=
| VBool (b : bool)
| VStr (s : string)
| VInt (z : Z)
| VFloat (q : Q)
| VNone.

Definition namespace := list (string * value).

Fixpoint lookup (name : string) (ns : namespace) : option value :=
  match ns with
  | [] => None
  | (k, v) :: r => if String.eqb k name then Some v else lookup name r
  end.

Fixpoint setattr (name : string) (v : value) (ns : namespace) : namespace :=
  match ns with
  | [] => [(name, v)]
  | (k, v0) :: r =>
      if String.eqb k name then (k, v) :: r else (k, v0) :: setattr name v r
  end.

(** The [type=] of an option ([type_none]: no conversion, the string is
    kept) and its [action=]. *)
Inductive arg_type : Type := type_none | type_str | type_int | type_float.

Inductive action : Type :=
| store (ty : arg_type)
| store_true.

Record argument : Type := add_argument {
  arg_flag : string;
  arg_action : action;
  arg_default : value
}.

Definition dest (a : argument) : string :=
  substring 2 (String.length (arg_flag a) - 2) (arg_flag a).

Definition parser : list argument :=
  [ add_argument "--use_cpu" store_true (VBool false);
    add_argument "--gpu" (store type_str) (VStr "0");
    add_argument "--batch_size" (store type_int) (VInt 24);
    add_argument "--model" (store type_none) (VStr "pointnet2_cls_ssg");
    add_argument "--epoch" (store type_int) (VInt 100);
    add_argument "--learning_rate" (store type_float) (VFloat (1 # 1000));
    add_argument "--num_points" (store type_int) (VInt 1024);
    add_argument "--optimizer" (store type_none) (VStr "Adam");
    add_argument "--log_dir" (store type_str) VNone;
    add_argument "--decay_rate" (store type_float) (VFloat (1 # 10000));
    add_argument "--use_normals" store_true (VBool false) ].

(** The attribute table before any option is read: every destination
    holds its default. *)
Definition defaults (p : list argument) : namespace :=
  fold_left (fun ns a => setattr (dest a) (arg_default a) ns) p [].

Section Parser.

(** The built-in conversions [int(s)] and [float(s)]. *)
Variable int : string -> option Z.
Variable float : string -> option Q.

Definition convert (ty : arg_type) (s : string) : option value :=
  match ty with
  | type_none => Some (VStr s)
  | type_str => Some (VStr s)
  | type_int => option_map VInt (int s)
  | type_float => option_map VFloat (float s)
  end.

(** [s.split('=', 1)] for an option token *)
Definition split_eq (tok : string) : string * option string :=
  match String.index 0 "=" tok with
  | Some i =>
      (substring 0 i tok, Some (substring (S i) (String.length tok - S i) tok))
  | None => (tok, None)
  end.

Inductive resolved : Type :=
| Found (a : argument) (explicit_arg : option string)
| Help
| Rejected.

Definition find_exact (name : string) (p : list argument) : option argument :=
  find (fun a => String.eqb (arg_flag a) name) p.

Definition is_digit (c : ascii) : bool :=
  let n := nat_of_ascii c in Nat.leb 48 n && Nat.leb n 57.

Fixpoint all_digits (s : string) : bool :=
  match s with
  | EmptyString => true
  | String c r => is_digit c && all_digits r
  end.

(** A token of the shape [-digits] or [-digits.digits] (the integer
    part may be empty in the second shape) is read as a number, not as
    an option. *)
Definition negative_number (tok : string) : bool :=
  match tok with
  | String "-" r =>
      match String.index 0 "." r with
      | None => negb (String.eqb r "") && all_digits r
      | Some i =>
          let frac := substring (S i) (String.length r - S i) r in
          all_digits (substring 0 i r) && negb (String.eqb frac "") && all_digits frac
      end
  | _ => false
  end.

(** Which declared option a token names: the flag itself, the flag
    followed by [=value], or an unambiguous abbreviation of a flag;
    [-h] and [--help] are the help option that every parser has.
    This is the fragment of the option syntax that the development
    covers: anything else (a positional token, a short option other
    than [-h], the bare separator) is rejected. *)
Definition resolve (p : list argument) (tok : string) : resolved :=
  if String.eqb tok "-h" || String.eqb tok "--help" then Help
  else if negb (String.prefix "--" tok) then Rejected
  else
    match find_exact tok p with
    | Some a => Found a None
    | None =>
        let (name, explicit_arg) := split_eq tok in
        match find_exact name p with
        | Some a => Found a explicit_arg
        | None =>
            match filter (fun a => String.prefix name (arg_flag a)) p,
                  String.prefix name "--help" with
            | [a], false => Found a explicit_arg
            | [], true => Help
            | _, _ => Rejected
            end
        end
    end.

(** A token can be the value of an option when it does not look like
    an option itself: it does not start with a dash, or it is a lone
    dash or a negative number. *)
Definition is_value (tok : string) : bool :=
  negb (String.prefix "-" tok) || String.eqb tok "-" || negative_number tok.

Fixpoint parse_known (p : list argument) (argv : list string) (ns : namespace)
  : result namespace :=
  match argv with
  | [] => Ok ns
  | tok :: rest =>
      match resolve p tok with
      | Help => Raise SystemExit
      | Rejected => Raise SystemExit
      | Found a explicit_arg =>
          match arg_action a, explicit_arg with
          | store_true, None => parse_known p rest (setattr (dest a) (VBool true) ns)
          | store_true, Some _ => Raise SystemExit
          | store ty, Some s =>
              match convert ty s with
              | Some v => parse_known p rest (setattr (dest a) v ns)
              | None => Raise SystemExit
              end
          | store ty, None =>
              match rest with
              | [] => Raise SystemExit
              | s :: rest' =>
                  if is_value s
                  then match convert ty s with
                       | Some v => parse_known p rest' (setattr (dest a) v ns)
                       | None => Raise SystemExit
                       end
                  else Raise SystemExit
              end
          end
      end
  end.

(** [parse_args()], on the command line [argv] (program name left
    out). *)
Definition parse_args (argv : list string) : result namespace :=
  parse_known parser argv (defaults parser).

End Parser.

(** ** Vocabulary of the statements about the parser *)



(** ** The process state and the monad of statements *)

Section Script.

(** The external collaborators of the script.  [P] is the type of the
    network's parameters, [G] of their gradients, [O] of the
    optimizer's own state, [Rng] of the random generators' state and
    [Aux] of the second component that the network returns and the
    script ignores. *)
Variables P G O Rng Aux : Type.

(** [model(x)]: depends on the parameters and on the train/inference
    mode; returns the class scores and a second, unused value. *)
Variable model : P -> bool -> data -> outputs * Aux.

(** [criterion(outputs, labels).item()] *)
Variable criterion : outputs -> labels -> Q.

Record world : Type := mkWorld {
  w_params : P;            (* model.parameters() *)
  w_training : bool;       (* model.training *)
  w_grad_enabled : bool;   (* torch.is_grad_enabled() *)
  w_grads : G;             (* the .grad of the parameters *)
  w_opt : O;               (* state of the optimizer *)
  w_rng : Rng;
  w_log : list event       (* oldest event first *)
}.

Definition M (A : Type) : Type := world -> result A * world.

Definition ret {A : Type} (a : A) : M A := fun w => (Ok a, w).

Definition bind {A B : Type} (m : M A) (f : A -> M B) : M B :=
  fun w =>
    match m w with
    | (Ok a, w') => f a w'
    | (Raise e, w') => (Raise e, w')
    end.

Definition raise {A : Type} (e : exn) : M A := fun w => (Raise e, w).

Definition emit (e : event) : M unit :=
  fun w =>
    (Ok tt, mkWorld (w_params w) (w_training w) (w_grad_enabled w)
                    (w_grads w) (w_opt w) (w_rng w) (w_log w ++ [e])).

Definition set_training (b : bool) : M unit :=
  fun w =>
    (Ok tt, mkWorld (w_params w) b (w_grad_enabled w)
                    (w_grads w) (w_opt w) (w_rng w) (w_log w)).

Definition set_grad_enabled (b : bool) (w : world) : world :=
  mkWorld (w_params w) (w_training w) b
          (w_grads w) (w_opt w) (w_rng w) (w_log w).

Definition of_option {A : Type} (e : exn) (o : option A) : M A :=
  match o with
  | Some a => ret a
  | None => raise e
  end.

Definition of_result {A : Type} (r : result A) : M A := fun w => (r, w).

Local Notation "x <- m ;; k" := (bind m (fun x => k))
  (at level 61, m at next level, right associativity).
Local Notation "m ;;; k" := (bind m (fun _ => k))
  (at level 61, right associativity).

(** [for x in xs: acc = body(acc, x)] *)
Fixpoint for_each {A S : Type} (body : S -> A -> M S) (acc : S) (xs : list A) : M S :=
  match xs with
  | [] => ret acc
  | x :: r => acc' <- body acc x ;; for_each body acc' r
  end.

(** [with torch.no_grad(): body]: gradient tracking is switched off for
    the body and put back to what it was on the way out, also when the
    body raises. *)
Definition no_grad {A : Type} (body : M A) : M A :=
  fun w =>
    let prev := w_grad_enabled w in
    let (r, w') := body (set_grad_enabled false w) in
    (r, set_grad_enabled prev w').

(** [model.eval()] and [model.train()] *)
Definition model_eval : M unit := set_training false.
Definition model_train : M unit := set_training true.

(** [outputs, _ = model(x)] *)
Definition call_model (x : data) : M outputs :=
  fun w =>
    bind (emit (EvForward (w_training w) (w_grad_enabled w) x))
         (fun _ => ret (fst (model (w_params w) (w_training w) x))) w.

(** [t.to(device)] *)
Definition to {A : Type} (d : device) (t : A) : M A :=
  emit (EvTo d) ;;; ret t.

(** ** visualize_predictions (lines 29-70)

    The plotting library is seen through the calls made to it: what it
    does with their arguments is outside the development. *)

Definition index {A : Type} (l : list A) (i : nat) : M A :=
  of_option IndexError (nth_error l i).

(** [pc[:, k]] *)
Definition column (pc : cloud) (k : nat) : M (list Q) :=
  of_option IndexError (traverse (fun row => nth_error row k) pc).

Definition visualize_sample (point_clouds : list cloud)
           (true_labels predicted_labels : list color_arg) (i : nat) : M unit :=
  pc <- index point_clouds i ;;
  true <- index true_labels i ;;
  pred <- index predicted_labels i ;;
  emit EvFigure ;;;
  xs <- column pc 0 ;;
  ys <- column pc 1 ;;
  zs <- column pc 2 ;;
  emit (EvScatter (mkScatter xs ys zs true marker_o (1 # 2) "True Labels" 10)) ;;;
  emit (EvScatter (mkScatter xs ys zs pred marker_x (1 # 2) "Predicted Labels" 20)) ;;;
  emit (EvTitle i) ;;;
  emit EvLegend ;;;
  emit EvShow.

Definition visualize_predictions (point_clouds : list cloud)
           (true_labels predicted_labels : list color_arg) : M unit :=
  for_each (fun _ i => visualize_sample point_clouds true_labels predicted_labels i)
           tt (seq 0 (length point_clouds)).

(** ** evaluate_model (lines 73-101)

    [loader] is the sequence of batches that the batch source yields
    in this pass. *)

Record accum : Type := mkAccum {
  losses : list Q;
  all_labels : labels;
  all_preds : labels;
  point_clouds : list cloud
}.

Definition evaluate_batch (dev : device) (acc : accum) (b : batch) : M accum :=
  x <- to dev (fst b) ;;
  y <- to dev (snd b) ;;
  out <- call_model x ;;
  let loss := criterion out y in
  preds <- of_option IndexError (argmax_dim2 out) ;;
  ret (mkAccum (losses acc ++ [loss])
               (all_labels acc ++ y)
               (all_preds acc ++ preds)
               (point_clouds acc ++ x)).

Definition evaluate_loop (loader : list batch) (dev : device) : M accum :=
  for_each (evaluate_batch dev) (mkAccum [] [] [] []) loader.

(** [sum(losses) / len(losses)] *)
Definition mean_loss (ls : list Q) : M Q :=
  match ls with
  | [] => raise ZeroDivisionError
  | _ => ret (Qsum ls / Qlen ls)%Q
  end.

(** [[x for sublist in xs for x in sublist]] *)
Definition flatten {A : Type} (xs : list (list A)) : list A :=
  flat_map (fun sublist => sublist) xs.

Definition evaluate_model (loader : list batch) (dev : device) (visualize : bool)
  : M (Q * number * number * number) :=
  model_eval ;;;
  acc <- no_grad (evaluate_loop loader dev) ;;
  avg_loss <- mean_loss (losses acc) ;;
  let all_labels := flatten (all_labels acc) in
  let all_preds := flatten (all_preds acc) in
  precision <- of_result (precision_score all_labels all_preds) ;;
  recall <- of_result (recall_score all_labels all_preds) ;;
  accuracy <- of_result (accuracy_score all_labels all_preds) ;;
  (if visualize
   then visualize_predictions (point_clouds acc)
                              (map CScalar all_labels) (map CScalar all_preds)
   else ret tt) ;;;
  ret (avg_loss, precision, recall, accuracy).

(** ** The batch loader ([torch.utils.data.DataLoader])

    Modelled from the framework's documentation.  A loader over a
    dataset of [n] samples draws the indices [0 .. n-1], in order or
    in a random order, groups them by [batch_size] (the last group may
    be shorter; [drop_last] is off) and stacks the samples of each
    group.  A batch size that is not positive is refused, and so is a
    shuffled loader over an empty dataset. *)

(** [torch.randperm(n)] *)
Variable randperm : Rng -> nat -> list nat * Rng.

Record DataLoader : Type := mkDataLoader {
  dl_dataset : list sample;
  dl_batch_size : nat;
  dl_shuffle : bool
}.

Definition new_DataLoader (dataset : list sample) (batch_size : Z) (shuffle : bool)
  : M DataLoader :=
  if (batch_size <=? 0)%Z then raise ValueError
  else if shuffle && Nat.eqb (length dataset) 0 then raise ValueError
  else ret (mkDataLoader dataset (Z.to_nat batch_size) shuffle).

(** The batch sampler: collect indices, emit a group when it is full,
    emit what is left at the end. *)
Fixpoint batch_sampler (batch_size : nat) (batch : list nat) (sampler : list nat)
  : list (list nat) :=
  match sampler with
  | [] => if Nat.ltb 0 (length batch) then [batch] else []
  | idx :: rest =>
      let batch' := batch ++ [idx] in
      if Nat.eqb (length batch') batch_size
      then batch' :: batch_sampler batch_size [] rest
      else batch_sampler batch_size batch' rest
  end.

Definition sampler (dl : DataLoader) : M (list nat) :=
  if dl_shuffle dl
  then fun w =>
         let (perm, g) := randperm (w_rng w) (length (dl_dataset dl)) in
         (Ok perm, mkWorld (w_params w) (w_training w) (w_grad_enabled w)
                           (w_grads w) (w_opt w) g (w_log w))
  else ret (seq 0 (length (dl_dataset dl))).

Definition collate (items : list sample) : batch :=
  (map fst items, map snd items).

Definition fetch (dataset : list sample) (indices : list nat) : M batch :=
  items <- of_option IndexError (traverse (nth_error dataset) indices) ;;
  ret (collate items).

(** One pass over the loader: the batches that [for ... in loader]
    goes through. *)
Definition iterate (dl : DataLoader) : M (list batch) :=
  indices <- sampler dl ;;
  for_each (fun acc group => b <- fetch (dl_dataset dl) group ;; ret (acc ++ [b]))
           [] (batch_sampler (dl_batch_size dl) [] indices).

(** ** The training loop of [main] (lines 123-134) *)

(** [loss.backward()]: the gradient of the loss of one batch with
    respect to the parameters, added to the stored gradients. *)
Variable grad_loss : P -> bool -> data -> labels -> G.
Variable grad_zero : G.
Variable grad_add : G -> G -> G.

(** [torch.optim.Adam]: the fresh optimizer state and one update of
    the parameters from the stored gradients, with the learning rate
    and the weight decay given at construction. *)
Variable adam_init : O.
Variable adam_step : Q -> Q -> O -> P -> G -> P * O.

Record Adam : Type := mkAdam {
  lr : Q;
  weight_decay : Q
}.

Definition new_Adam (learning_rate decay_rate : Q) : M Adam :=
  if Qlt_le_dec learning_rate 0 then raise ValueError
  else if Qlt_le_dec decay_rate 0 then raise ValueError
  else fun w =>
         (Ok (mkAdam learning_rate decay_rate),
          mkWorld (w_params w) (w_training w) (w_grad_enabled w)
                  (w_grads w) adam_init (w_rng w) (w_log w)).

Definition zero_grad : M unit :=
  emit EvZeroGrad ;;;
  fun w =>
    (Ok tt, mkWorld (w_params w) (w_training w) (w_grad_enabled w)
                    grad_zero (w_opt w) (w_rng w) (w_log w)).

Definition backward (x : data) (y : labels) : M unit :=
  emit EvBackward ;;;
  fun w =>
    if w_grad_enabled w
    then (Ok tt, mkWorld (w_params w) (w_training w) (w_grad_enabled w)
                         (grad_add (w_grads w) (grad_loss (w_params w) (w_training w) x y))
                         (w_opt w) (w_rng w) (w_log w))
    else (Raise RuntimeError, w).

Definition step (optimizer : Adam) : M unit :=
  emit EvStep ;;;
  fun w =>
    let (p, o) := adam_step (lr optimizer) (weight_decay optimizer)
                            (w_opt w) (w_params w) (w_grads w) in
    (Ok tt, mkWorld p (w_training w) (w_grad_enabled w)
                    (w_grads w) o (w_rng w) (w_log w)).

Definition shape3 (t : list (list (list Q))) : list nat :=
  [length t; length (hd [] t); length (hd [] (hd [] t))].

Definition shape2 (t : labels) : list nat :=
  [length t; length (hd [] t)].

Definition train_batch (dev : device) (optimizer : Adam) (b : batch) : M unit :=
  x <- to dev (fst b) ;;
  y <- to dev (snd b) ;;
  zero_grad ;;;
  out <- call_model x ;;
  emit (EvPrint (MsgOutputsShape (shape3 out))) ;;;
  emit (EvPrint (MsgLabelsShape (shape2 y))) ;;;
  let loss := criterion out y in
  emit (EvPrint (MsgLoss loss)) ;;;
  backward x y ;;;
  step optimizer.

(** The inner loop: one pass over the train loader. *)
Definition train_epoch (train_loader : DataLoader) (dev : device) (optimizer : Adam)
  : M unit :=
  batches <- iterate train_loader ;;
  for_each (fun _ b => train_batch dev optimizer b) tt batches.

(** ** main (lines 103-146) *)

(** The environment of the run: the directory listing, whether an
    accelerator is present, the dataset class and the constructor of
    the network (which draws the initial parameters). *)
Variable listdir : string -> option (list string).
Variable cuda_is_available : bool.
Variable Pointnet2dataset : string -> list string -> value -> bool -> string -> list sample.
Variable get_model : Z -> Rng -> P * Rng.

(** [args.name] *)
Definition getattr (args : namespace) (name : string) : M value :=
  of_option AttributeError (lookup name args).

(** Truth value of an attribute, as [not args.use_cpu] takes it. *)
Definition truth (v : value) : bool :=
  match v with
  | VBool b => b
  | VStr s => negb (String.eqb s "")
  | VInt z => negb (Z.eqb z 0)
  | VFloat q => negb (Qeq_bool q 0)
  | VNone => false
  end.

(** An attribute used as an integer or as a float; a value of another
    kind than the parser stores for these options is refused. *)
Definition as_int (v : value) : M Z :=
  match v with
  | VInt z => ret z
  | _ => raise TypeError
  end.

Definition as_float (v : value) : M Q :=
  match v with
  | VFloat q => ret q
  | VInt z => ret (inject_Z z)
  | _ => raise TypeError
  end.

(** [range(n)] *)
Definition range (n : Z) : list Z :=
  map Z.of_nat (seq 0 (Z.to_nat n)).

(** [get_model(num_class=2).to(device)]: a fresh network, in
    training mode as every new module is. *)
Definition init_model (num_class : Z) (dev : device) : M unit :=
  (fun w =>
     let (p, g) := get_model num_class (w_rng w) in
     (Ok tt, mkWorld p true (w_grad_enabled w)
                     (w_grads w) (w_opt w) g (w_log w))) ;;;
  emit (EvTo dev).

Definition select_device (args : namespace) : M device :=
  if cuda_is_available
  then use_cpu <- getattr args "use_cpu" ;;
       ret (if negb (truth use_cpu) then cuda else cpu)
  else ret cpu.

Definition run_epoch (train_loader val_loader : DataLoader) (dev : device)
           (optimizer : Adam) (epoch : Z) : M unit :=
  model_train ;;;
  train_epoch train_loader dev optimizer ;;;
  train_batches <- iterate train_loader ;;
  train_metrics <- evaluate_model train_batches dev false ;;
  val_batches <- iterate val_loader ;;
  val_metrics <- evaluate_model val_batches dev false ;;
  let '(train_loss, train_prec, train_recall, train_acc) := train_metrics in
  let '(val_loss, val_prec, val_recall, val_acc) := val_metrics in
  emit (EvPrint (MsgEpoch epoch train_loss train_prec train_recall train_acc)) ;;;
  emit (EvPrint (MsgValidation val_loss val_prec val_recall val_acc)).

Definition main (args : namespace) : M unit :=
  let dataset_path := "2023_RCSE_Centerline"%string in
  file_names <- of_option FileNotFoundError (listdir dataset_path) ;;
  num_points <- getattr args "num_points" ;;
  let train_dataset := Pointnet2dataset dataset_path file_names num_points true "train" in
  let val_dataset := Pointnet2dataset dataset_path file_names num_points false "val" in
  let test_dataset := Pointnet2dataset dataset_path file_names num_points false "test" in
  batch_size <- bind (getattr args "batch_size") as_int ;;
  train_loader <- new_DataLoader train_dataset batch_size true ;;
  val_loader <- new_DataLoader val_dataset batch_size false ;;
  test_loader <- new_DataLoader test_dataset batch_size false ;;
  dev <- select_device args ;;
  init_model 2 dev ;;;
  emit (EvPrint MsgModelInitialized) ;;;
  emit (EvPrint MsgModel) ;;;
  emit (EvTo dev) ;;;
  learning_rate <- bind (getattr args "learning_rate") as_float ;;
  decay_rate <- bind (getattr args "decay_rate") as_float ;;
  optimizer <- new_Adam learning_rate decay_rate ;;
  epochs <- bind (getattr args "epoch") as_int ;;
  for_each (fun _ epoch => run_epoch train_loader val_loader dev optimizer epoch)
           tt (range epochs) ;;;
  test_batches <- iterate test_loader ;;
  test_metrics <- evaluate_model test_batches dev false ;;
  let '(test_loss, test_prec, test_recall, test_acc) := test_metrics in
  emit (EvPrint (MsgTest test_loss test_prec test_recall test_acc)).

(** ** Vocabulary of the statements *)

(** The world with further events logged. *)
Definition logged (w : world) (evs : list event) : world :=
  mkWorld (w_params w) (w_training w) (w_grad_enabled w)
          (w_grads w) (w_opt w) (w_rng w) (w_log w ++ evs).

(** A computation that leaves the parameters of the network as they
    are, whether it returns or raises. *)
Definition keeps_params {A : Type} (m : M A) : Prop :=
  forall w, w_params (snd (m w)) = w_params w.

Definition is_step (e : event) : bool :=
  match e with
  | EvStep => true
  | _ => false
  end.

(** How often [optimizer.step()] was called. *)
Definition optimizer_steps (log : list event) : nat :=
  length (filter is_step log).

(** The framework calls of an evaluation pass over [loader], made
    with the mode flag [t] and the gradient flag [g]. *)
Definition evaluate_events (dev : device) (t g : bool) (loader : list batch)
  : list event :=
  flat_map (fun b => [EvTo dev; EvTo dev; EvForward t g (fst b)]) loader.

(** The world after an evaluation pass over [loader] that was not
    asked to visualise: the network is left in inference mode, the
    gradient flag is what it was, the calls of the pass are logged. *)
Definition evaluated (w : world) (dev : device) (loader : list batch) : world :=
  mkWorld (w_params w) false (w_grad_enabled w)
          (w_grads w) (w_opt w) (w_rng w)
          (w_log w ++ evaluate_events dev false false loader).

(** Per batch: the scores of the network with parameters [p] in mode
    [t], and the loss of these scores against the batch's labels. *)
Definition pass_outputs (p : P) (t : bool) (loader : list batch) : list outputs :=
  map (fun b => fst (model p t (fst b))) loader.

Definition pass_losses (p : P) (t : bool) (loader : list batch) : list Q :=
  map (fun b => criterion (fst (model p t (fst b))) (snd b)) loader.

(** All true labels of a pass and all predicted labels, point by
    point. *)
Definition pass_labels (loader : list batch) : list label :=
  flatten (flat_map snd loader).

Definition pass_preds (preds : list labels) : list label :=
  flatten (concat preds).

(** A tensor of [b] rows with [n] entries each. *)
Definition shaped {A : Type} (b n : nat) (t : list (list A)) : Prop :=
  length t = b /\ Forall (fun row => length row = n) t.

(** Scores for [b] samples of [n] points each, with at least one
    class. *)
Definition scores_shaped (b n : nat) (o : outputs) : Prop :=
  shaped b n o /\ Forall (Forall (fun scores => scores <> [])) o.

(** Two worlds that differ at most in the state of the random
    generators. *)
Definition same_but_rng (w w' : world) : Prop :=
  w_params w' = w_params w /\ w_training w' = w_training w
  /\ w_grad_enabled w' = w_grad_enabled w /\ w_grads w' = w_grads w
  /\ w_opt w' = w_opt w /\ w_log w' = w_log w.

(** The least number of groups of [b] that hold [n] things. *)
Definition ceil_div (n b : Z) : Z := ((n + b - 1) / b)%Z.

(** A computation that only adds events with the property [good] to
    the log, whether it returns or raises. *)
Definition emits_only (good : event -> Prop) {A : Type} (m : M A) : Prop :=
  forall w, exists evs, w_log (snd (m w)) = w_log w ++ evs /\ Forall good evs.

(** An event that is not a scatter call with an array of labels as
    its colour argument. *)
Definition scalar_coloured (e : event) : Prop :=
  match e with
  | EvScatter c => exists l, sc_c c = CScalar l
  | _ => True
  end.

(** The colour arguments of the scatter calls in a log, in order. *)
Definition scatter_colours (log : list event) : list color_arg :=
  flat_map (fun e => match e with
                     | EvScatter c => [sc_c c]
                     | _ => []
                     end) log.

(** A computation whose only effect on the world is what it adds to
    the log, whether it returns or raises. *)
Definition logs_only {A : Type} (m : M A) : Prop :=
  forall w, exists evs, snd (m w) = logged w evs.

(** A computation that leaves the world as it is. *)
Definition effect_free {A : Type} (m : M A) : Prop :=
  forall w, snd (m w) = w.

(** The world with the network put in inference mode. *)
Definition in_eval_mode (w : world) : world :=
  mkWorld (w_params w) false (w_grad_enabled w)
          (w_grads w) (w_opt w) (w_rng w) (w_log w).

(** A point cloud every row of which has the three coordinates that
    the scatter plot reads. *)
Definition three_columns (pc : cloud) : Prop :=
  Forall (fun row => (3 <= length row)%nat) pc.

Definition is_show (e : event) : bool :=
  match e with
  | EvShow => true
  | _ => false
  end.

(** How many plot windows were shown. *)
Definition windows (log : list event) : nat :=
  length (filter is_show log).

(** The point clouds that were handed to the network, in the order of
    the calls. *)
Definition forward_inputs (log : list event) : list cloud :=
  flat_map (fun e => match e with
                     | EvForward _ _ x => x
                     | _ => []
                     end) log.

(** The framework calls and printed lines of one training step on the
    batch [b], made in mode [t]. *)
Definition train_events (dev : device) (t : bool) (p : P) (b : batch) : list event :=
  [EvTo dev; EvTo dev; EvZeroGrad; EvForward t true (fst b);
   EvPrint (MsgOutputsShape (shape3 (fst (model p t (fst b)))));
   EvPrint (MsgLabelsShape (shape2 (snd b)));
   EvPrint (MsgLoss (criterion (fst (model p t (fst b))) (snd b)));
   EvBackward; EvStep].

(** A computation that leaves the gradient-tracking flag as it finds
    it and adds only events with the property [good] to the log,
    whether it returns or raises. *)
Definition tame (good : event -> Prop) {A : Type} (m : M A) : Prop :=
  forall w,
    w_grad_enabled (snd (m w)) = w_grad_enabled w
    /\ exists evs, w_log (snd (m w)) = w_log w ++ evs /\ Forall good evs.

(** Events that neither touch the parameters or their gradients nor
    print. *)
Definition passive (e : event) : Prop :=
  match e with
  | EvZeroGrad | EvBackward | EvStep | EvPrint _ => False
  | _ => True
  end.

Definition not_step (e : event) : Prop := is_step e = false.

(** Events that do not move a tensor to the accelerator. *)
Definition on_cpu (e : event) : Prop :=
  match e with
  | EvTo d => d = cpu
  | _ => True
  end.

(** Started with gradient tracking on, the computation ends with
    gradient tracking on and has called [optimizer.step()] [j * c]
    times for some [j <= n], with [j = n] when it returns. *)
Definition counts (c n : nat) {A : Type} (m : M A) : Prop :=
  forall w,
    w_grad_enabled w = true ->
    w_grad_enabled (snd (m w)) = true
    /\ exists j : nat,
        (j <= n)%nat
        /\ optimizer_steps (w_log (snd (m w)))
           = (optimizer_steps (w_log w) + j * c)%nat
        /\ (forall a, fst (m w) = Ok a -> j = n).

(** What [ax.scatter] takes as [c] for a cloud, after the plotting
    library's documentation: one number per point; a single number
    only when the cloud has one point.  Any other colour argument of
    the kind used here is refused by the library, which the plot calls
    of this development do not show: the statements about plots assume
    accepted colours. *)
Definition scatter_accepts (pc : cloud) (c : color_arg) : Prop :=
  match c with
  | CScalar _ => length pc = 1%nat
  | CArray cs => length cs = length pc
  end.

(** Every colour argument is accepted for the cloud of its index. *)
Definition colours_accepted (pcs : list cloud) (cs : list color_arg) : Prop :=
  forall i pc c,
    nth_error pcs i = Some pc -> nth_error cs i = Some c -> scatter_accepts pc c.

(** The world with another gradient stored. *)
Definition with_grads (g : G) (w : world) : world :=
  mkWorld (w_params w) (w_training w) (w_grad_enabled w)
          g (w_opt w) (w_rng w) (w_log w).

(** A computation that neither reads nor writes the stored gradient. *)
Definition grads_blind {A : Type} (m : M A) : Prop :=
  forall g w, m (with_grads g w) = (fst (m w), with_grads g (snd (m w))).

End Script.

(** ** A small concrete instance

    A one-weight "network" over which the definitions can be run: the
    score of class 0 is the weight, the score of class 1 is the first
    coordinate of the point, so a point is put in class 1 exactly when
    its first coordinate exceeds the weight. *)

Module Toy.

Definition model (p : Z) (training : bool) (x : data) : outputs * unit :=
  (map (map (fun pt => [inject_Z p; hd 0%Q pt])) x, tt).

(** A loss that counts the samples of the batch. *)
Definition criterion (out : outputs) (y : labels) : Q := Qlen out.

(** A "loss" that is negative on every batch. *)
Definition negative_criterion (out : outputs) (y : labels) : Q := (-1)%Q.

Definition randperm (g : nat) (n : nat) : list nat * nat := (rev (seq 0 n), S g).

Definition grad_loss (p : Z) (training : bool) (x : data) (y : labels) : Z := 1%Z.

Definition adam_step (lr wd : Q) (o : nat) (p : Z) (g : Z) : Z * nat :=
  ((p - g)%Z, S o).

Definition listdir (path : string) : option (list string) :=
  Some ["a.npy"; "b.npy"; "c.npy"]%string.

Definition pt (x : Z) : list Q := [inject_Z x; 0%Q; 0%Q].

(** Two points per sample. *)
Definition sample_of (x0 x1 l0 l1 : Z) : sample := ([pt x0; pt x1], [l0; l1]).

Definition dataset : list sample :=
  [sample_of 2 (-1) 1 0; sample_of (-3) 4 0 1; sample_of 5 6 1 1].

Definition Pointnet2dataset (path : string) (file_names : list string)
           (num_points : value) (augment : bool) (split : string) : list sample :=
  dataset.

Definition get_model (num_class : Z) (g : nat) : Z * nat := (0%Z, S g).

Definition w0 : world Z Z nat nat := mkWorld 0%Z true true 0%Z 0%nat 0%nat [].

(** One batch holding the first two samples of [dataset]. *)
Definition loader1 : list batch := [collate (firstn 2 dataset)].

(** A "network" that scores no class at all. *)
Definition classless_model (p : Z) (training : bool) (x : data) : outputs * unit :=
  (map (map (fun _ : list Q => @nil Q)) x, tt).

(** One batch of one sample with two points but a single label. *)
Definition ragged_loader : list batch := [([[pt 2; pt (-1)]], [[1%Z]])].

(** A dataset class with samples in the train and validation views and
    none in the test view. *)
Definition split_dataset (path : string) (file_names : list string)
           (num_points : value) (augment : bool) (split : string) : list sample :=
  if String.eqb split "test" then [] else dataset.

(** Conversions that know the numerals 2 and 8. *)
Definition int (s : string) : option Z :=
  if String.eqb s "2" then Some 2%Z
  else if String.eqb s "8" then Some 8%Z
  else None.

Definition float (s : string) : option Q := None.

(** The defaults with two samples per batch and a single epoch. *)
Definition short_run : namespace :=
  setattr "batch_size" (VInt 2) (setattr "epoch" (VInt 1) (defaults parser)).

(** One batch of two samples of one point each. *)
Definition single_loader : list batch := [([[pt 2]; [pt (-3)]], [[1%Z]; [0%Z]])].

End Toy.

(** * Properties *)

(** ** Arg-max *)

Lemma argmax_from_spec (l : list Q) :
  forall (prefix : list Q) (best : Q) (besti : nat),
    (besti < length prefix)%nat ->
    nth besti prefix 0 = best ->
    (forall j, (j < length prefix)%nat -> nth j prefix 0 <= best) ->
    (forall j, (j < besti)%nat -> nth j prefix 0 < best) ->
    let i := argmax_from best besti (length prefix) l in
    (i < length (prefix ++ l))%nat
    /\ (forall j, (j < length (prefix ++ l))%nat ->
                  nth j (prefix ++ l) 0 <= nth i (prefix ++ l) 0)
    /\ (forall j, (j < i)%nat -> nth j (prefix ++ l) 0 < nth i (prefix ++ l) 0).
Proof.
  induction l as [|x r IH]; intros prefix best besti Hlt Hbest Hle Hfirst; cbn.
  - rewrite app_nil_r. rewrite Hbest. repeat split; auto.
  - replace (prefix ++ x :: r) with ((prefix ++ [x]) ++ r)
      by (now rewrite <- app_assoc).
    replace (S (length prefix)) with (length (prefix ++ [x]))
      by (rewrite length_app; cbn; lia).
    assert (Hold : forall j, (j < length prefix)%nat ->
                             nth j (prefix ++ [x]) 0 = nth j prefix 0)
      by (intros; now apply app_nth1).
    assert (Hx : nth (length prefix) (prefix ++ [x]) 0 = x)
      by (now rewrite nth_middle).
    assert (Hcases : forall j, (j < length (prefix ++ [x]))%nat ->
                               (j < length prefix)%nat \/ j = length prefix)
      by (intros j; rewrite length_app; cbn; lia).
    destruct (Qlt_le_dec best x) as [Hbx|Hxb]; apply IH.
    + rewrite length_app; cbn; lia.
    + exact Hx.
    + intros j Hj. destruct (Hcases j Hj) as [Hj'| ->].
      * rewrite Hold by exact Hj'. apply Qlt_le_weak.
        eapply Qle_lt_trans; [apply Hle, Hj'|exact Hbx].
      * rewrite Hx. apply Qle_refl.
    + intros j Hj. rewrite Hold by exact Hj.
      eapply Qle_lt_trans; [apply Hle, Hj|exact Hbx].
    + rewrite length_app; cbn; lia.
    + now rewrite Hold.
    + intros j Hj. destruct (Hcases j Hj) as [Hj'| ->].
      * rewrite Hold by exact Hj'. now apply Hle.
      * now rewrite Hx.
    + intros j Hj. rewrite Hold by lia. now apply Hfirst.
Qed.

(** [argmax] returns the position of the first maximal score. *)
Lemma argmax_first_max (scores : list Q) (i : nat) :
  argmax scores = Some i ->
  (i < length scores)%nat
  /\ (forall j, (j < length scores)%nat -> nth j scores 0 <= nth i scores 0)
  /\ (forall j, (j < i)%nat -> nth j scores 0 < nth i scores 0).
Proof.
  destruct scores as [|x r]; [discriminate|].
  cbn [argmax]. intros E. inversion E; subst; clear E.
  apply (@argmax_from_spec r [x] x 0%nat).
  - cbn; lia.
  - reflexivity.
  - intros j Hj. cbn in Hj. assert (j = 0)%nat as -> by lia. apply Qle_refl.
  - intros j Hj. lia.
Qed.

Lemma argmax_total (scores : list Q) :
  scores <> [] -> exists i, argmax scores = Some i.
Proof. destruct scores; [congruence|]. intros _. now eexists. Qed.

(** ** Sums and means of rationals *)

Lemma fold_Qplus_acc (l : list Q) :
  forall a : Q, fold_left Qplus l a == a + fold_left Qplus l 0.
Proof.
  induction l as [|x r IH]; intros a; simpl.
  - ring.
  - rewrite IH, (IH (0 + x)). ring.
Qed.

Lemma Qsum_cons (x : Q) (l : list Q) : Qsum (x :: l) == x + Qsum l.
Proof. unfold Qsum; simpl. rewrite fold_Qplus_acc. ring. Qed.

Lemma Qlen_cons {A : Type} (x : A) (l : list A) : Qlen (x :: l) == 1 + Qlen l.
Proof.
  unfold Qlen. cbn [length]. rewrite Nat2Z.inj_succ, <- Z.add_1_l.
  now rewrite inject_Z_plus.
Qed.

Lemma Qlen_nonneg {A : Type} (l : list A) : 0 <= Qlen l.
Proof.
  unfold Qlen. change 0 with (inject_Z 0). rewrite <- Zle_Qle. lia.
Qed.

Lemma Qlen_pos {A : Type} (l : list A) : l <> [] -> 0 < Qlen l.
Proof.
  destruct l as [|x r]; [congruence|intros _].
  rewrite Qlen_cons. pose proof (Qlen_nonneg r) as H.
  apply Qlt_le_trans with (y := 1); [reflexivity|].
  rewrite <- (Qplus_0_r 1) at 1. now apply Qplus_le_r.
Qed.

Lemma Qsum_nonneg (l : list Q) : Forall (fun q => 0 <= q) l -> 0 <= Qsum l.
Proof.
  induction 1 as [|x r Hx _ IH].
  - unfold Qsum; simpl. apply Qle_refl.
  - rewrite Qsum_cons. rewrite <- (Qplus_0_r 0). now apply Qplus_le_compat.
Qed.

Lemma Qsum_le_len (l : list Q) : Forall (fun q => q <= 1) l -> Qsum l <= Qlen l.
Proof.
  induction 1 as [|x r Hx _ IH].
  - unfold Qsum, Qlen; simpl. apply Qle_refl.
  - rewrite Qsum_cons, Qlen_cons. now apply Qplus_le_compat.
Qed.

Lemma Qsum_all_one (l : list Q) : Forall (fun q => q == 1) l -> Qsum l == Qlen l.
Proof.
  induction 1 as [|x r Hx _ IH].
  - reflexivity.
  - now rewrite Qsum_cons, Qlen_cons, Hx, IH.
Qed.

Lemma mean_nonneg (l : list Q) :
  l <> [] -> Forall (fun q => 0 <= q) l -> 0 <= Qsum l / Qlen l.
Proof.
  intros Hne Hl. apply Qle_shift_div_l; [now apply Qlen_pos|].
  rewrite Qmult_0_l. now apply Qsum_nonneg.
Qed.

Lemma mean_le_one (l : list Q) :
  l <> [] -> Forall (fun q => q <= 1) l -> Qsum l / Qlen l <= 1.
Proof.
  intros Hne Hl. apply Qle_shift_div_r; [now apply Qlen_pos|].
  rewrite Qmult_1_l. now apply Qsum_le_len.
Qed.

Lemma mean_all_one (l : list Q) :
  l <> [] -> Forall (fun q => q == 1) l -> Qsum l / Qlen l == 1.
Proof.
  intros Hne Hl. rewrite (Qsum_all_one Hl).
  apply Qmult_inv_r. intros E. pose proof (Qlen_pos Hne) as Hp.
  rewrite E in Hp. discriminate.
Qed.

(** ** The per-class counts and ratios *)

Lemma count_pairs_le_length (f : label -> label -> bool) (yt yp : list label) :
  (count_pairs f yt yp <= length yt)%nat.
Proof.
  unfold count_pairs.
  eapply Nat.le_trans; [apply filter_length_le|].
  rewrite length_combine. apply Nat.le_min_l.
Qed.

Lemma count_pairs_mono (f g : label -> label -> bool) (yt yp : list label) :
  (forall t p, f t p = true -> g t p = true) ->
  (count_pairs f yt yp <= count_pairs g yt yp)%nat.
Proof.
  intros Hfg. unfold count_pairs.
  induction (combine yt yp) as [|[t p] r IH]; simpl; [lia|].
  destruct (f t p) eqn:Ef.
  - rewrite (Hfg _ _ Ef). simpl. lia.
  - destruct (g t p); simpl; lia.
Qed.

Lemma tp_le_pred (c : label) (yt yp : list label) :
  (tp_sum c yt yp <= pred_sum c yt yp)%nat.
Proof.
  apply count_pairs_mono. intros t p H.
  now apply andb_true_iff in H as [_ H].
Qed.

Lemma tp_le_true (c : label) (yt yp : list label) :
  (tp_sum c yt yp <= true_sum c yt yp)%nat.
Proof.
  apply count_pairs_mono. intros t p H.
  now apply andb_true_iff in H as [H _].
Qed.

Lemma prf_divide_bounds (n d : nat) :
  (n <= d)%nat -> 0 <= prf_divide n d <= 1.
Proof.
  intros Hnd. unfold prf_divide.
  destruct (Nat.eqb_spec d 0) as [->|Hd].
  - split; [apply Qle_refl|discriminate].
  - assert (Hpos : 0 < inject_Z (Z.of_nat d)).
    { change 0 with (inject_Z 0). rewrite <- Zlt_Qlt. lia. }
    split.
    + apply Qle_shift_div_l; [exact Hpos|]. rewrite Qmult_0_l.
      change 0 with (inject_Z 0). rewrite <- Zle_Qle. lia.
    + apply Qle_shift_div_r; [exact Hpos|]. rewrite Qmult_1_l.
      rewrite <- Zle_Qle. lia.
Qed.

Lemma prf_divide_same (n : nat) : (0 < n)%nat -> prf_divide n n == 1.
Proof.
  intros Hn. unfold prf_divide.
  destruct (Nat.eqb_spec n 0) as [->|_]; [lia|].
  apply Qmult_inv_r. intros E.
  assert (H : 0 < inject_Z (Z.of_nat n)).
  { change 0 with (inject_Z 0). rewrite <- Zlt_Qlt. lia. }
  rewrite E in H. discriminate.
Qed.

(** When the predictions are the true labels, every count of a class
    is the number of its occurrences. *)

Lemma count_pairs_diag (f : label -> label -> bool) (y : list label) :
  count_pairs f y y = length (filter (fun t => f t t) y).
Proof.
  unfold count_pairs. induction y as [|t r IH]; simpl; [reflexivity|].
  destruct (f t t); simpl; now rewrite IH.
Qed.

Lemma occurs_filter_pos (c : label) (y : list label) :
  In c y -> (0 < length (filter (fun t => Z.eqb t c) y))%nat.
Proof.
  induction y as [|t r IH]; simpl; [tauto|].
  intros [->|Hin].
  - rewrite Z.eqb_refl. simpl. lia.
  - destruct (Z.eqb t c); simpl; [lia|auto].
Qed.

Lemma tp_diag (c : label) (y : list label) :
  tp_sum c y y = length (filter (fun t => Z.eqb t c) y).
Proof.
  unfold tp_sum. rewrite count_pairs_diag.
  f_equal. apply filter_ext. intros t. now rewrite andb_diag.
Qed.

Lemma pred_diag (c : label) (y : list label) :
  pred_sum c y y = length (filter (fun t => Z.eqb t c) y).
Proof. unfold pred_sum. now rewrite count_pairs_diag. Qed.

Lemma true_diag (c : label) (y : list label) :
  true_sum c y y = length (filter (fun t => Z.eqb t c) y).
Proof. unfold true_sum. now rewrite count_pairs_diag. Qed.

Lemma agree_diag (y : list label) : count_pairs Z.eqb y y = length y.
Proof.
  rewrite count_pairs_diag. f_equal.
  induction y as [|t r IH]; simpl; [reflexivity|].
  now rewrite Z.eqb_refl, IH.
Qed.

Lemma unique_labels_nonempty (yt yp : list label) :
  yt <> [] -> unique_labels yt yp <> [].
Proof.
  destruct yt as [|t r]; [congruence|intros _ E].
  assert (H : In t (unique_labels (t :: r) yp)).
  { unfold unique_labels. apply nodup_In. now left. }
  rewrite E in H. contradiction.
Qed.

Lemma unique_labels_diag (c : label) (y : list label) :
  In c (unique_labels y y) -> In c y.
Proof.
  unfold unique_labels. rewrite nodup_In, in_app_iff. tauto.
Qed.

(** ** The three metrics on lists of equal length *)

Lemma nanaverage_map_bounds {A : Type} (f : A -> Q) (l : list A) :
  l <> [] -> (forall x, In x l -> 0 <= f x <= 1) ->
  exists q, nanaverage (map f l) = Num q /\ 0 <= q <= 1.
Proof.
  intros Hne Hf.
  assert (Hm : map f l <> []) by (destruct l; simpl; congruence).
  exists (Qsum (map f l) / Qlen (map f l)). split.
  - unfold nanaverage. destruct (map f l); congruence.
  - split.
    + apply mean_nonneg; [exact Hm|].
      apply Forall_forall. intros q Hq. apply in_map_iff in Hq as (x & <- & Hx).
      now apply Hf.
    + apply mean_le_one; [exact Hm|].
      apply Forall_forall. intros q Hq. apply in_map_iff in Hq as (x & <- & Hx).
      now apply Hf.
Qed.

Lemma nanaverage_map_one {A : Type} (f : A -> Q) (l : list A) :
  l <> [] -> (forall x, In x l -> f x == 1) ->
  exists q, nanaverage (map f l) = Num q /\ q == 1.
Proof.
  intros Hne Hf.
  assert (Hm : map f l <> []) by (destruct l; simpl; congruence).
  exists (Qsum (map f l) / Qlen (map f l)). split.
  - unfold nanaverage. destruct (map f l); congruence.
  - apply mean_all_one; [exact Hm|].
    apply Forall_forall. intros q Hq. apply in_map_iff in Hq as (x & <- & Hx).
    now apply Hf.
Qed.

Lemma precision_score_bounds (yt yp : list label) :
  length yt = length yp -> yt <> [] ->
  exists q, precision_score yt yp = Ok (Num q) /\ 0 <= q <= 1.
Proof.
  intros Hlen Hne. unfold precision_score.
  rewrite Hlen, Nat.eqb_refl.
  destruct (nanaverage_map_bounds
              (fun c => prf_divide (tp_sum c yt yp) (pred_sum c yt yp))
              (unique_labels_nonempty yp Hne)) as (q & -> & Hq).
  - intros c _. apply prf_divide_bounds, tp_le_pred.
  - now exists q.
Qed.

Lemma recall_score_bounds (yt yp : list label) :
  length yt = length yp -> yt <> [] ->
  exists q, recall_score yt yp = Ok (Num q) /\ 0 <= q <= 1.
Proof.
  intros Hlen Hne. unfold recall_score.
  rewrite Hlen, Nat.eqb_refl.
  destruct (nanaverage_map_bounds
              (fun c => prf_divide (tp_sum c yt yp) (true_sum c yt yp))
              (unique_labels_nonempty yp Hne)) as (q & -> & Hq).
  - intros c _. apply prf_divide_bounds, tp_le_true.
  - now exists q.
Qed.

Lemma accuracy_score_bounds (yt yp : list label) :
  length yt = length yp -> yt <> [] ->
  exists q, accuracy_score yt yp = Ok (Num q) /\ 0 <= q <= 1.
Proof.
  intros Hlen Hne. unfold accuracy_score.
  rewrite Hlen, Nat.eqb_refl.
  exists (inject_Z (Z.of_nat (count_pairs Z.eqb yt yp)) / Qlen yt). split.
  - destruct yt; congruence.
  - pose proof (Qlen_pos Hne) as Hpos.
    pose proof (count_pairs_le_length Z.eqb yt yp) as Hle.
    split.
    + apply Qle_shift_div_l; [exact Hpos|]. rewrite Qmult_0_l.
      change 0 with (inject_Z 0). rewrite <- Zle_Qle. lia.
    + apply Qle_shift_div_r; [exact Hpos|]. rewrite Qmult_1_l.
      unfold Qlen. rewrite <- Zle_Qle. lia.
Qed.

Lemma precision_score_perfect (y : list label) :
  y <> [] -> exists q, precision_score y y = Ok (Num q) /\ q == 1.
Proof.
  intros Hne. unfold precision_score. rewrite Nat.eqb_refl.
  destruct (nanaverage_map_one
              (fun c => prf_divide (tp_sum c y y) (pred_sum c y y))
              (unique_labels_nonempty y Hne)) as (q & -> & Hq).
  - intros c Hc. rewrite tp_diag, pred_diag.
    apply prf_divide_same, occurs_filter_pos, unique_labels_diag, Hc.
  - now exists q.
Qed.

Lemma recall_score_perfect (y : list label) :
  y <> [] -> exists q, recall_score y y = Ok (Num q) /\ q == 1.
Proof.
  intros Hne. unfold recall_score. rewrite Nat.eqb_refl.
  destruct (nanaverage_map_one
              (fun c => prf_divide (tp_sum c y y) (true_sum c y y))
              (unique_labels_nonempty y Hne)) as (q & -> & Hq).
  - intros c Hc. rewrite tp_diag, true_diag.
    apply prf_divide_same, occurs_filter_pos, unique_labels_diag, Hc.
  - now exists q.
Qed.

Lemma accuracy_score_perfect (y : list label) :
  y <> [] -> exists q, accuracy_score y y = Ok (Num q) /\ q == 1.
Proof.
  intros Hne. unfold accuracy_score. rewrite Nat.eqb_refl.
  exists (inject_Z (Z.of_nat (count_pairs Z.eqb y y)) / Qlen y). split.
  - destruct y; congruence.
  - rewrite agree_diag. apply Qmult_inv_r. intros E.
    pose proof (Qlen_pos Hne) as Hp. unfold Qlen in Hp. rewrite E in Hp. discriminate.
Qed.

(** ** Properties of the script *)

Create HintDb frame.

Section Properties.

Variables P G O Rng Aux : Type.
Variable model : P -> bool -> data -> outputs * Aux.
Variable criterion : outputs -> labels -> Q.

Let world := world P G O Rng.

(** ** The log only grows by what is emitted *)

Lemma logged_nil (w : world) : logged w [] = w.
Proof. destruct w; unfold logged; simpl. now rewrite app_nil_r. Qed.

Lemma logged_logged (w : world) (a b : list event) :
  logged (logged w a) b = logged w (a ++ b).
Proof. unfold logged; simpl. now rewrite app_assoc. Qed.

Lemma traverse_cons_inv {A B : Type} (f : A -> option B) x r ys :
  traverse f (x :: r) = Some ys ->
  exists y ys', f x = Some y /\ traverse f r = Some ys' /\ ys = y :: ys'.
Proof.
  simpl. destruct (f x) as [y|]; [|discriminate].
  destruct (traverse f r) as [ys'|]; [|discriminate].
  intros E; inversion E; subst. now exists y, ys'.
Qed.

Lemma traverse_length {A B : Type} (f : A -> option B) l ys :
  traverse f l = Some ys -> length ys = length l.
Proof.
  revert ys; induction l as [|x r IH]; simpl; intros ys E.
  - now inversion E.
  - destruct (f x); [|discriminate].
    destruct (traverse f r) eqn:Er; [|discriminate].
    inversion E; subst; simpl. now rewrite (IH _ eq_refl).
Qed.

(** ** The loop of evaluate_model in closed form *)

Lemma evaluate_batch_run (dev : device) (acc : accum) (b : batch) (w : world)
      (y : labels) :
  argmax_dim2 (fst (model (w_params w) (w_training w) (fst b))) = Some y ->
  evaluate_batch model criterion dev acc b w
  = (Ok (mkAccum
           (losses acc ++ [criterion (fst (model (w_params w) (w_training w) (fst b)))
                                     (snd b)])
           (all_labels acc ++ snd b)
           (all_preds acc ++ y)
           (point_clouds acc ++ fst b)),
     logged w [EvTo dev; EvTo dev;
               EvForward (w_training w) (w_grad_enabled w) (fst b)]).
Proof.
  intros Hy.
  unfold evaluate_batch, bind, to, emit, call_model; cbn.
  rewrite Hy. unfold logged; cbn.
  now rewrite <- !app_assoc.
Qed.

Lemma evaluate_batch_raises (dev : device) (acc : accum) (b : batch) (w : world) :
  argmax_dim2 (fst (model (w_params w) (w_training w) (fst b))) = None ->
  evaluate_batch model criterion dev acc b w
  = (Raise IndexError,
     logged w [EvTo dev; EvTo dev;
               EvForward (w_training w) (w_grad_enabled w) (fst b)]).
Proof.
  intros Hy.
  unfold evaluate_batch, bind, to, emit, call_model; cbn.
  rewrite Hy. unfold logged; cbn.
  now rewrite <- !app_assoc.
Qed.

Lemma evaluate_loop_from (dev : device) (loader : list batch) :
  forall (acc : accum) (w : world) (preds : list labels),
    traverse argmax_dim2 (pass_outputs model (w_params w) (w_training w) loader)
    = Some preds ->
    for_each (evaluate_batch model criterion dev) acc loader w
    = (Ok (mkAccum
             (losses acc ++ pass_losses model criterion (w_params w) (w_training w) loader)
             (all_labels acc ++ flat_map snd loader)
             (all_preds acc ++ concat preds)
             (point_clouds acc ++ flat_map fst loader)),
       logged w (evaluate_events dev (w_training w) (w_grad_enabled w) loader)).
Proof.
  induction loader as [|b r IH]; intros acc w preds Hp.
  - simpl in Hp; inversion Hp; subst; simpl.
    unfold ret, evaluate_events; simpl.
    rewrite logged_nil, !app_nil_r. now destruct acc.
  - unfold pass_outputs in Hp. cbn [map] in Hp.
    apply traverse_cons_inv in Hp as (y & ys & Hy & Hys & ->).
    cbn [for_each]. unfold bind.
    rewrite (evaluate_batch_run dev acc b w Hy).
    rewrite (IH _ _ ys) by exact Hys.
    rewrite logged_logged. cbn.
    rewrite <- !app_assoc. reflexivity.
Qed.

Lemma evaluate_model_run (loader : list batch) (dev : device) (w : world)
      (preds : list labels) (p r a : number) :
  loader <> [] ->
  traverse argmax_dim2 (pass_outputs model (w_params w) false loader) = Some preds ->
  precision_score (pass_labels loader) (pass_preds preds) = Ok p ->
  recall_score (pass_labels loader) (pass_preds preds) = Ok r ->
  accuracy_score (pass_labels loader) (pass_preds preds) = Ok a ->
  evaluate_model model criterion loader dev false w
  = (Ok (Qsum (pass_losses model criterion (w_params w) false loader)
         / Qlen (pass_losses model criterion (w_params w) false loader),
         p, r, a),
     evaluated w dev loader).
Proof.
  intros Hne Hp Hprec Hrec Hacc.
  unfold evaluate_model, bind, model_eval, set_training, no_grad, evaluate_loop.
  cbn.
  rewrite (evaluate_loop_from dev loader _ _ (preds := preds)) by exact Hp.
  cbn.
  assert (Hl : pass_losses model criterion (w_params w) false loader <> []).
  { destruct loader; [congruence|discriminate]. }
  unfold mean_loss.
  destruct (pass_losses model criterion (w_params w) false loader) as [|l0 ls] eqn:El;
    [congruence|].
  unfold ret, of_result; cbn.
  unfold pass_labels, pass_preds, flatten in Hprec, Hrec, Hacc.
  rewrite Hprec, Hrec, Hacc. reflexivity.
Qed.

(** ** Shapes *)

Lemma flatten_shaped {A : Type} (b n : nat) (t : list (list A)) :
  shaped b n t -> length (flatten t) = (b * n)%nat.
Proof.
  intros [<- Hrows]. unfold flatten.
  induction Hrows as [|row r Hrow _ IH]; simpl; [reflexivity|].
  now rewrite length_app, IH, Hrow.
Qed.

Lemma flatten_app {A : Type} (s t : list (list A)) :
  flatten (s ++ t) = flatten s ++ flatten t.
Proof. unfold flatten. apply flat_map_app. Qed.

Lemma flatten_pass_length {A B : Type} (f : A -> list (list B)) (b n : nat)
      (l : list A) :
  (forall x, In x l -> shaped b n (f x)) ->
  length (flatten (flat_map f l)) = (length l * (b * n))%nat.
Proof.
  induction l as [|x r IH]; intros H; simpl; [reflexivity|].
  rewrite flatten_app, length_app, IH by (intros; apply H; now right).
  now rewrite (flatten_shaped (H x (or_introl eq_refl))).
Qed.

Lemma argmax_row_shaped (n : nat) (row : list (list Q)) :
  length row = n -> Forall (fun scores => scores <> []) row ->
  exists y, traverse (fun scores => option_map Z.of_nat (argmax scores)) row = Some y
            /\ length y = n.
Proof.
  intros <- H. induction H as [|scores r Hs _ (y & Hy & Hlen)].
  - now exists [].
  - destruct scores as [|s0 ss]; [congruence|].
    eexists. cbn. rewrite Hy. split; [reflexivity|]. simpl. now rewrite Hlen.
Qed.

Lemma argmax_dim2_shaped (b n : nat) (o : outputs) :
  scores_shaped b n o -> exists y, argmax_dim2 o = Some y /\ shaped b n y.
Proof.
  intros [[<- Hrows] Hne]. unfold argmax_dim2.
  induction o as [|row r IH].
  - exists []. split; [reflexivity|]. split; [reflexivity|constructor].
  - apply Forall_cons_iff in Hrows as [Hrow Hr].
    apply Forall_cons_iff in Hne as [Hn Hnr].
    destruct (IH Hr Hnr) as (ys & Hys & Hlen & Hall).
    destruct (argmax_row_shaped Hrow Hn) as (y & Hy & Hylen).
    exists (y :: ys). cbn. rewrite Hy, Hys. split; [reflexivity|].
    split; [simpl; now rewrite Hlen|]. now constructor.
Qed.

Lemma pass_preds_shaped (b n : nat) (p : P) (t : bool) (loader : list batch) :
  (forall x, In x loader -> scores_shaped b n (fst (model p t (fst x)))) ->
  exists preds,
    traverse argmax_dim2 (pass_outputs model p t loader) = Some preds
    /\ length (flatten (concat preds)) = (length loader * (b * n))%nat.
Proof.
  induction loader as [|x r IH]; intros H.
  - now exists [].
  - destruct IH as (ps & Hps & Hlen); [intros; apply H; now right|].
    destruct (argmax_dim2_shaped (H x (or_introl eq_refl))) as (y & Hy & Hsh).
    exists (y :: ps). unfold pass_outputs in *. cbn [map traverse].
    rewrite Hy, Hps. cbn [concat length].
    split; [reflexivity|].
    now rewrite flatten_app, length_app, Hlen, (flatten_shaped Hsh).
Qed.

(** ** What leaves the parameters alone *)

Lemma keeps_ret {A : Type} (a : A) : keeps_params (ret a : M P G O Rng A).
Proof. intros w. reflexivity. Qed.

Lemma keeps_raise {A : Type} (e : exn) :
  keeps_params (raise e : M P G O Rng A).
Proof. intros w. reflexivity. Qed.

Lemma keeps_bind {A B : Type} (m : M P G O Rng A) (f : A -> M P G O Rng B) :
  keeps_params m -> (forall a, keeps_params (f a)) -> keeps_params (bind m f).
Proof.
  intros Hm Hf w. unfold bind. specialize (Hm w).
  destruct (m w) as [[a|e] w']; simpl in *.
  - now rewrite Hf.
  - exact Hm.
Qed.

Lemma keeps_emit (e : event) : keeps_params (emit e : M P G O Rng unit).
Proof. intros w. reflexivity. Qed.

Lemma keeps_set_training (b : bool) :
  keeps_params (set_training b : M P G O Rng unit).
Proof. intros w. reflexivity. Qed.

Lemma keeps_of_option {A : Type} (e : exn) (o : option A) :
  keeps_params (of_option e o : M P G O Rng A).
Proof. destruct o; intros w; reflexivity. Qed.

Lemma keeps_of_result {A : Type} (r : result A) :
  keeps_params (of_result r : M P G O Rng A).
Proof. intros w. reflexivity. Qed.

Lemma keeps_no_grad {A : Type} (body : M P G O Rng A) :
  keeps_params body -> keeps_params (no_grad body).
Proof.
  intros Hb w. unfold no_grad.
  specialize (Hb (set_grad_enabled false w)).
  destruct (body (set_grad_enabled false w)) as [r w']. exact Hb.
Qed.

Lemma keeps_for_each {A S : Type} (body : S -> A -> M P G O Rng S) (xs : list A) :
  (forall s x, keeps_params (body s x)) ->
  forall acc, keeps_params (for_each body acc xs).
Proof.
  intros Hb. induction xs as [|x r IH]; intros acc; simpl.
  - apply keeps_ret.
  - apply keeps_bind; [apply Hb|exact IH].
Qed.

Lemma keeps_call_model (x : data) : keeps_params (call_model model x : M P G O Rng outputs).
Proof. intros w. reflexivity. Qed.

Lemma keeps_to {A : Type} (d : device) (t : A) :
  keeps_params (to d t : M P G O Rng A).
Proof. intros w. reflexivity. Qed.

Lemma keeps_mean_loss (ls : list Q) :
  keeps_params (mean_loss ls : M P G O Rng Q).
Proof. destruct ls; intros w; reflexivity. Qed.

Local Hint Resolve keeps_ret keeps_raise keeps_emit keeps_set_training keeps_of_option
     keeps_of_result keeps_call_model keeps_to keeps_mean_loss : frame.

Ltac frame :=
  repeat first
    [ apply keeps_bind; [|intros ?]
    | apply keeps_no_grad
    | apply keeps_for_each; intros ? ?
    | solve [auto with frame] ].

Lemma keeps_evaluate_batch (dev : device) (acc : accum) (b : batch) :
  keeps_params (evaluate_batch model criterion dev acc b : M P G O Rng accum).
Proof. unfold evaluate_batch. frame. Qed.

Lemma keeps_visualize_predictions (pcs : list cloud) (tl pl : list color_arg) :
  keeps_params (visualize_predictions pcs tl pl : M P G O Rng unit).
Proof.
  unfold visualize_predictions. apply keeps_for_each. intros _ i.
  unfold visualize_sample, index, column. frame.
Qed.

(** ** evaluate_model *)


(** C2.  Over a loader that yields no batch, [evaluate_model] raises
    the division-by-zero error of the mean over zero losses;  no
    metric value is returned. *)
Theorem evaluate_model_empty_loader (dev : device) (visualize : bool) (w : world) :
  exists w' : world,
    evaluate_model model criterion [] dev visualize w = (Raise ZeroDivisionError, w')
    /\ w_log w' = w_log w.
Proof.
  eexists. split; [reflexivity|]. reflexivity.
Qed.

(** C4.  When a pass with at least one labelled point goes through and
    every prediction equals the true label at its position, the macro
    precision, the macro recall and the accuracy that [evaluate_model]
    returns are all 1. *)
Theorem evaluate_model_perfect (loader : list batch) (dev : device) (w : world)
        (preds : list labels) :
  traverse argmax_dim2 (pass_outputs model (w_params w) false loader) = Some preds ->
  pass_preds preds = pass_labels loader ->
  pass_labels loader <> [] ->
  exists (loss precision recall accuracy : Q) (w' : world),
    evaluate_model model criterion loader dev false w
    = (Ok (loss, Num precision, Num recall, Num accuracy), w')
    /\ precision == 1 /\ recall == 1 /\ accuracy == 1.
Proof.
  intros Hp Heq Hne.
  assert (Hl : loader <> []) by (intros ->; now apply Hne).
  destruct (precision_score_perfect Hne) as (p & Ep & Hp1).
  destruct (recall_score_perfect Hne) as (r & Er & Hr1).
  destruct (accuracy_score_perfect Hne) as (a & Ea & Ha1).
  rewrite <- Heq in Ep at 2. rewrite <- Heq in Er at 2. rewrite <- Heq in Ea at 2.
  eexists _, p, r, a, _. split; [|now repeat split].
  apply (evaluate_model_run dev w Hl Hp Ep Er Ea).
Qed.

(** C6.  Flattening keeps every entry: when every batch of the loader
    holds [b] samples of [n] points (and the network scores at least
    one class for each of them), the flattened list of labels and the
    flattened list of predictions that the loop of [evaluate_model]
    has accumulated both have (number of batches) * (b * n)
    entries. *)
Theorem flatten_preserves_count (loader : list batch) (dev : device) (w : world)
        (b n : nat) :
  (forall x, In x loader ->
             shaped b n (snd x)
             /\ scores_shaped b n (fst (model (w_params w) (w_training w) (fst x)))) ->
  exists (acc : accum) (w' : world),
    evaluate_loop model criterion loader dev w = (Ok acc, w')
    /\ length (flatten (all_labels acc)) = (length loader * (b * n))%nat
    /\ length (flatten (all_preds acc)) = (length loader * (b * n))%nat.
Proof.
  intros H.
  destruct (@pass_preds_shaped b n (w_params w) (w_training w) loader)
    as (preds & Hp & Hlen); [intros x Hx; apply (H x Hx)|].
  unfold evaluate_loop.
  rewrite (evaluate_loop_from dev loader _ _ (preds := preds)) by exact Hp.
  eexists _, _. split; [reflexivity|]. cbn [all_labels all_preds app].
  split; [|exact Hlen].
  apply flatten_pass_length. intros x Hx. apply (H x Hx).
Qed.

(** C7, as amended.  On a pass that goes through and has at least one
    labelled point, [evaluate_model] returns the mean of the per-batch
    losses, as the loss function gave them, together with a precision,
    a recall and an accuracy that are numbers between 0 and 1.  The
    returned loss is at least 0 when every per-batch loss is;  nothing
    else bounds it. *)
Theorem evaluate_model_ranges (loader : list batch) (dev : device) (w : world)
        (preds : list labels) :
  traverse argmax_dim2 (pass_outputs model (w_params w) false loader) = Some preds ->
  length (pass_labels loader) = length (pass_preds preds) ->
  pass_labels loader <> [] ->
  exists (precision recall accuracy : Q) (w' : world),
    evaluate_model model criterion loader dev false w
    = (Ok (Qsum (pass_losses model criterion (w_params w) false loader)
           / Qlen (pass_losses model criterion (w_params w) false loader),
           Num precision, Num recall, Num accuracy), w')
    /\ 0 <= precision <= 1 /\ 0 <= recall <= 1 /\ 0 <= accuracy <= 1
    /\ (Forall (fun l => 0 <= l)
               (pass_losses model criterion (w_params w) false loader) ->
        0 <= Qsum (pass_losses model criterion (w_params w) false loader)
             / Qlen (pass_losses model criterion (w_params w) false loader)).
Proof.
  intros Hp Hlen Hne.
  assert (Hl : loader <> []) by (intros ->; now apply Hne).
  destruct (precision_score_bounds _ Hlen Hne) as (p & Ep & Hpb).
  destruct (recall_score_bounds _ Hlen Hne) as (r & Er & Hrb).
  destruct (accuracy_score_bounds _ Hlen Hne) as (a & Ea & Hab).
  exists p, r, a. eexists.
  split; [apply (evaluate_model_run dev w Hl Hp Ep Er Ea)|].
  split; [exact Hpb|]. split; [exact Hrb|]. split; [exact Hab|].
  intros Hlosses. apply mean_nonneg; [|exact Hlosses].
  destruct loader; [congruence|discriminate].
Qed.

(** C10.  [evaluate_model] leaves the parameters of the network as
    they are, on every loader and whether it returns or raises. *)
Theorem evaluate_model_keeps_params (loader : list batch) (dev : device)
        (visualize : bool) (w : world) :
  w_params (snd (evaluate_model model criterion loader dev visualize w)) = w_params w.
Proof.
  revert w. change (keeps_params (evaluate_model model criterion loader dev visualize
                                  : M P G O Rng _)).
  unfold evaluate_model, model_eval, evaluate_loop.
  apply keeps_bind; [auto with frame|intros _].
  apply keeps_bind;
    [apply keeps_no_grad, keeps_for_each; intros; apply keeps_evaluate_batch
    |intros acc].
  frame.
  destruct visualize; [apply keeps_visualize_predictions|apply keeps_ret].
Qed.

(** ** The batch loader *)

Lemma ceil_div_spec (n b : Z) :
  (0 < b)%Z -> (b * (ceil_div n b - 1) < n <= b * ceil_div n b)%Z.
Proof.
  intros Hb. unfold ceil_div.
  pose proof (Z.div_mod (n + b - 1) b ltac:(lia)) as E.
  pose proof (Z.mod_pos_bound (n + b - 1) b Hb) as Hm.
  lia.
Qed.

Lemma batch_sampler_length (bs : nat) (sampler : list nat) :
  (0 < bs)%nat ->
  forall batch : list nat,
    (length batch < bs)%nat ->
    length (batch_sampler bs batch sampler)
    = ((length batch + length sampler + bs - 1) / bs)%nat.
Proof.
  intros Hbs. induction sampler as [|idx rest IH]; intros batch Hlt; cbn [batch_sampler].
  - destruct (Nat.ltb_spec 0 (length batch)) as [Hpos|Hz]; cbn [length].
    + apply Nat.div_unique with (r := (length batch - 1)%nat); lia.
    + symmetry. apply Nat.div_small. lia.
  - rewrite length_app. cbn [length].
    destruct (Nat.eqb_spec (length batch + 1) bs) as [Hfull|Hnot].
    + cbn [length]. rewrite IH by (cbn; lia). cbn [length].
      replace (length batch + S (length rest) + bs - 1)%nat
        with (1 * bs + (0 + length rest + bs - 1))%nat by lia.
      rewrite Nat.div_add_l by lia. reflexivity.
    + rewrite IH by (rewrite length_app; cbn; lia).
      rewrite length_app. cbn [length]. f_equal. lia.
Qed.

Lemma batch_sampler_indices (bs : nat) (sampler : list nat) (good : nat -> Prop) :
  Forall good sampler ->
  forall batch : list nat,
    Forall good batch -> Forall (Forall good) (batch_sampler bs batch sampler).
Proof.
  induction 1 as [|idx rest Hidx _ IH]; intros batch Hb; cbn [batch_sampler].
  - destruct (Nat.ltb 0 (length batch)); [now constructor|constructor].
  - assert (Hb' : Forall good (batch ++ [idx])).
    { apply Forall_app. split; [exact Hb|now constructor]. }
    destruct (Nat.eqb (length (batch ++ [idx])) bs).
    + constructor; [exact Hb'|]. apply IH. constructor.
    + now apply IH.
Qed.

Lemma traverse_total {A B : Type} (f : A -> option B) (l : list A) :
  Forall (fun x => exists y, f x = Some y) l -> exists ys, traverse f l = Some ys.
Proof.
  induction 1 as [|x r (y & Hy) _ (ys & Hys)].
  - now exists [].
  - exists (y :: ys). cbn. now rewrite Hy, Hys.
Qed.

(** [torch.randperm(n)] is a permutation of [0 .. n-1]. *)
Variable randperm : Rng -> nat -> list nat * Rng.
Hypothesis randperm_permutation :
  forall (g : Rng) (n : nat), Permutation (fst (randperm g n)) (seq 0 n).

Variable grad_loss : P -> bool -> data -> labels -> G.
Variable grad_zero : G.
Variable grad_add : G -> G -> G.
Variable adam_step : Q -> Q -> O -> P -> G -> P * O.

Lemma sampler_run (dl : DataLoader) (w : world) :
  exists (indices : list nat) (w' : world),
    sampler randperm dl w = (Ok indices, w')
    /\ Permutation indices (seq 0 (length (dl_dataset dl)))
    /\ same_but_rng w w'.
Proof.
  unfold sampler. destruct (dl_shuffle dl).
  - pose proof (randperm_permutation (w_rng w) (length (dl_dataset dl))) as Hperm.
    destruct (randperm (w_rng w) (length (dl_dataset dl))) as [perm g].
    eexists _, _. split; [reflexivity|]. split; [exact Hperm|].
    now repeat split.
  - eexists _, _. split; [reflexivity|]. split; [reflexivity|].
    now repeat split.
Qed.

Lemma fetch_run (dataset : list sample) (group : list nat) (w : world) :
  Forall (fun i => (i < length dataset)%nat) group ->
  exists b : batch, fetch dataset group w = (Ok b, w).
Proof.
  intros Hg.
  destruct (@traverse_total _ _ (nth_error dataset) group) as (items & Hitems).
  - eapply Forall_impl; [|exact Hg]. intros i Hi. cbn in Hi.
    destruct (nth_error dataset i) eqn:E; [now eexists|].
    apply nth_error_None in E. lia.
  - exists (collate items). unfold fetch, bind, of_option. now rewrite Hitems.
Qed.

Lemma fetch_loop_run (dataset : list sample) (groups : list (list nat)) :
  Forall (Forall (fun i => (i < length dataset)%nat)) groups ->
  forall (acc : list batch) (w : world),
  exists bs : list batch,
    for_each (fun acc group => bind (fetch dataset group) (fun b => ret (acc ++ [b])))
             acc groups w
    = (Ok (acc ++ bs), w)
    /\ length bs = length groups.
Proof.
  induction 1 as [|group rest Hg _ IH]; intros acc w.
  - exists []. cbn. now rewrite app_nil_r.
  - destruct (@fetch_run dataset group w Hg) as (b & Hb).
    destruct (IH (acc ++ [b]) w) as (bs & Hbs & Hlen).
    exists (b :: bs). cbn [for_each]. unfold bind at 1. unfold bind at 1.
    rewrite Hb. unfold ret at 1. rewrite Hbs, <- app_assoc.
    split; [reflexivity|]. cbn. now rewrite Hlen.
Qed.

(** One pass over a loader yields [ceil (n / batch_size)] batches and
    touches nothing but the random generators. *)
Lemma iterate_run (dl : DataLoader) (w : world) :
  (0 < dl_batch_size dl)%nat ->
  exists (batches : list batch) (w' : world),
    iterate randperm dl w = (Ok batches, w')
    /\ length batches
       = ((length (dl_dataset dl) + dl_batch_size dl - 1) / dl_batch_size dl)%nat
    /\ same_but_rng w w'.
Proof.
  intros Hbs.
  destruct (sampler_run dl w) as (indices & w' & Hs & Hperm & Hsame).
  assert (Hidx : Forall (fun i => (i < length (dl_dataset dl))%nat) indices).
  { apply Forall_forall. intros i Hi.
    apply (Permutation_in _ Hperm), in_seq in Hi. lia. }
  destruct (@fetch_loop_run (dl_dataset dl)
              (batch_sampler (dl_batch_size dl) [] indices)
              (batch_sampler_indices (dl_batch_size dl) Hidx (Forall_nil _)) [] w')
    as (bs & Hrun & Hlen).
  exists bs, w'. unfold iterate. unfold bind at 1. rewrite Hs, Hrun.
  split; [reflexivity|]. split; [|exact Hsame].
  rewrite Hlen, batch_sampler_length by (cbn; lia).
  cbn [length]. rewrite (Permutation_length Hperm), length_seq. reflexivity.
Qed.

(** ** The training loop *)

Lemma optimizer_steps_app (l l' : list event) :
  optimizer_steps (l ++ l') = (optimizer_steps l + optimizer_steps l')%nat.
Proof. unfold optimizer_steps. now rewrite filter_app, length_app. Qed.

Lemma train_batch_run (dev : device) (optimizer : Adam) (b : batch) (w : world) :
  w_grad_enabled w = true ->
  exists w' : world,
    train_batch model criterion grad_loss grad_zero grad_add adam_step dev optimizer b w
    = (Ok tt, w')
    /\ w_grad_enabled w' = true
    /\ optimizer_steps (w_log w') = S (optimizer_steps (w_log w)).
Proof.
  intros Hg.
  unfold train_batch, bind, to, zero_grad, call_model, backward, step, emit, ret.
  cbn. rewrite Hg.
  destruct (adam_step _ _ _ _ _) as [p o].
  eexists. split; [reflexivity|]. split; [reflexivity|].
  unfold optimizer_steps. cbn [w_log]. rewrite !filter_app, !length_app. cbn. lia.
Qed.

Lemma train_loop_run (dev : device) (optimizer : Adam) (batches : list batch) :
  forall w : world,
    w_grad_enabled w = true ->
    exists w' : world,
      for_each (fun _ b => train_batch model criterion grad_loss grad_zero grad_add
                                       adam_step dev optimizer b)
               tt batches w
      = (Ok tt, w')
      /\ w_grad_enabled w' = true
      /\ optimizer_steps (w_log w')
         = (optimizer_steps (w_log w) + length batches)%nat.
Proof.
  induction batches as [|b r IH]; intros w Hg.
  - exists w. cbn. split; [reflexivity|]. split; [exact Hg|lia].
  - destruct (train_batch_run dev optimizer b w Hg) as (w1 & H1 & Hg1 & Hs1).
    destruct (IH w1 Hg1) as (w2 & H2 & Hg2 & Hs2).
    exists w2. cbn [for_each]. unfold bind at 1. rewrite H1.
    destruct (for_each _ tt r w1) as [res w2'] eqn:E.
    inversion H2; subst. split; [reflexivity|]. split; [exact Hg2|].
    cbn [length]. lia.
Qed.

(** C5.  One pass of the training loop over a loader built on a
    dataset of [N] samples with batch size [B] calls
    [optimizer.step()] exactly ceil (N / B) times: once per batch that
    the loader yields. *)
Theorem train_epoch_optimizer_steps (dataset : list sample) (batch_size : Z)
        (shuffle : bool) (dev : device) (optimizer : Adam) (w0 w : world)
        (train_loader : DataLoader) :
  new_DataLoader dataset batch_size shuffle w0 = (Ok train_loader, w) ->
  w_grad_enabled w = true ->
  exists w' : world,
    train_epoch model criterion randperm grad_loss grad_zero grad_add adam_step
                train_loader dev optimizer w
    = (Ok tt, w')
    /\ Z.of_nat (optimizer_steps (w_log w'))
       = (Z.of_nat (optimizer_steps (w_log w))
          + ceil_div (Z.of_nat (length dataset)) batch_size)%Z.
Proof.
  intros Hnew Hg. unfold new_DataLoader in Hnew.
  destruct (Z.leb_spec batch_size 0) as [|Hpos]; [discriminate|].
  destruct (shuffle && Nat.eqb (length dataset) 0); [discriminate|].
  inversion Hnew; subst; clear Hnew.
  destruct (@iterate_run (mkDataLoader dataset (Z.to_nat batch_size) shuffle) w)
    as (batches & w1 & Hit & Hlen & Hsame); [cbn; lia|].
  destruct Hsame as (_ & _ & Hg1 & _ & _ & Hlog).
  destruct (train_loop_run dev optimizer batches w1) as (w2 & Hrun & _ & Hsteps);
    [congruence|].
  exists w2. unfold train_epoch, bind. rewrite Hit, Hrun.
  split; [reflexivity|].
  rewrite Hsteps, Hlog, Nat2Z.inj_add, Hlen. cbn [dl_dataset dl_batch_size].
  f_equal. unfold ceil_div.
  rewrite Nat2Z.inj_div, Nat2Z.inj_sub, Nat2Z.inj_add, Z2Nat.id by lia.
  reflexivity.
Qed.

(** ** main *)

Variable adam_init : O.
Variable listdir : string -> option (list string).
Variable cuda_is_available : bool.
Variable Pointnet2dataset : string -> list string -> value -> bool -> string -> list sample.
Variable get_model : Z -> Rng -> P * Rng.

(** [main] reads six attributes of its argument and no other. *)
Lemma main_reads (args1 args2 : namespace) :
  (forall name,
      In name ["num_points"; "batch_size"; "use_cpu"; "learning_rate";
               "decay_rate"; "epoch"]%string ->
      lookup name args1 = lookup name args2) ->
  main model criterion randperm grad_loss grad_zero grad_add adam_init adam_step
       listdir cuda_is_available Pointnet2dataset get_model args1
  = main model criterion randperm grad_loss grad_zero grad_add adam_init adam_step
         listdir cuda_is_available Pointnet2dataset get_model args2.
Proof.
  intros H. unfold main, select_device, getattr.
  rewrite (H "num_points"%string), (H "batch_size"%string), (H "use_cpu"%string),
    (H "learning_rate"%string), (H "decay_rate"%string), (H "epoch"%string)
    by (cbn; tauto).
  reflexivity.
Qed.

(** C9.  Two argument sets that differ only in [optimizer], [model],
    [gpu], [log_dir] and [use_normals] make [main] do the same thing:
    the same result, the same final state and the same sequence of
    framework calls, printed lines and plots. *)
Theorem main_ignores_unused_options (args1 args2 : namespace) (w : world) :
  (forall name,
      ~ In name ["optimizer"; "model"; "gpu"; "log_dir"; "use_normals"]%string ->
      lookup name args1 = lookup name args2) ->
  main model criterion randperm grad_loss grad_zero grad_add adam_init adam_step
       listdir cuda_is_available Pointnet2dataset get_model args1 w
  = main model criterion randperm grad_loss grad_zero grad_add adam_init adam_step
         listdir cuda_is_available Pointnet2dataset get_model args2 w.
Proof.
  intros H. rewrite (@main_reads args1 args2); [reflexivity|].
  intros name Hin. apply H. cbn in *.
  intros Hbad.
  repeat match goal with
         | H : _ \/ _ |- _ => destruct H
         | H : False |- _ => destruct H
         end; subst; discriminate.
Qed.

(** ** What visualize_predictions is handed by evaluate_model *)

Section Emits.

Variable good : event -> Prop.

Lemma emits_ret {A : Type} (a : A) : emits_only good (ret a : M P G O Rng A).
Proof. intros w. exists []. cbn. now rewrite app_nil_r. Qed.

Lemma emits_raise {A : Type} (e : exn) : emits_only good (raise e : M P G O Rng A).
Proof. intros w. exists []. cbn. now rewrite app_nil_r. Qed.

Lemma emits_bind {A B : Type} (m : M P G O Rng A) (f : A -> M P G O Rng B) :
  emits_only good m -> (forall a, emits_only good (f a)) ->
  emits_only good (bind m f).
Proof.
  intros Hm Hf w. unfold bind. destruct (Hm w) as (evs & Hlog & Hgood).
  destruct (m w) as [[a|e] w1]; cbn in *.
  - destruct (Hf a w1) as (evs' & Hlog' & Hgood').
    exists (evs ++ evs'). rewrite Hlog', Hlog, app_assoc.
    split; [reflexivity|]. apply Forall_app. now split.
  - now exists evs.
Qed.

Lemma emits_emit (e : event) : good e -> emits_only good (emit e : M P G O Rng unit).
Proof. intros He w. exists [e]. cbn. split; [reflexivity|]. now constructor. Qed.

Lemma emits_set_training (b : bool) :
  emits_only good (set_training b : M P G O Rng unit).
Proof. intros w. exists []. cbn. now rewrite app_nil_r. Qed.

Lemma emits_of_option {A : Type} (e : exn) (o : option A) :
  emits_only good (of_option e o : M P G O Rng A).
Proof. destruct o; [apply emits_ret|apply emits_raise]. Qed.

Lemma emits_bind_of_option {A B : Type} (e : exn) (o : option A)
      (f : A -> M P G O Rng B) :
  (forall a, o = Some a -> emits_only good (f a)) ->
  emits_only good (bind (of_option e o) f).
Proof.
  intros Hf. destruct o as [a|]; cbn.
  - intros w. apply (Hf a eq_refl w).
  - intros w. exists []. cbn. now rewrite app_nil_r.
Qed.

Lemma emits_of_result {A : Type} (r : result A) :
  emits_only good (of_result r : M P G O Rng A).
Proof. intros w. exists []. cbn. now rewrite app_nil_r. Qed.

Lemma emits_no_grad {A : Type} (body : M P G O Rng A) :
  emits_only good body -> emits_only good (no_grad body).
Proof.
  intros Hb w. unfold no_grad.
  destruct (Hb (set_grad_enabled false w)) as (evs & Hlog & Hgood).
  destruct (body (set_grad_enabled false w)) as [r w']. now exists evs.
Qed.

Lemma emits_for_each {A S : Type} (body : S -> A -> M P G O Rng S) (xs : list A) :
  (forall s x, emits_only good (body s x)) ->
  forall acc, emits_only good (for_each body acc xs).
Proof.
  intros Hb. induction xs as [|x r IH]; intros acc; cbn [for_each].
  - apply emits_ret.
  - apply emits_bind; [apply Hb|exact IH].
Qed.

End Emits.

Lemma emits_evaluate_batch (dev : device) (acc : accum) (b : batch) :
  emits_only scalar_coloured
             (evaluate_batch model criterion dev acc b : M P G O Rng accum).
Proof.
  unfold evaluate_batch, to.
  repeat first [ apply emits_bind; [|intros ?]
               | apply emits_emit; exact I
               | apply emits_ret
               | apply emits_of_option ].
  intros w. unfold call_model.
  apply emits_bind; [apply emits_emit; exact I|intros; apply emits_ret].
Qed.

Lemma emits_visualize_sample (pcs : list cloud) (tl pl : list color_arg) (i : nat) :
  Forall (fun c => exists l, c = CScalar l) tl ->
  Forall (fun c => exists l, c = CScalar l) pl ->
  emits_only scalar_coloured (visualize_sample pcs tl pl i : M P G O Rng unit).
Proof.
  intros Htl Hpl. unfold visualize_sample, index, column.
  rewrite Forall_forall in Htl, Hpl.
  apply emits_bind_of_option; intros pc _.
  apply emits_bind_of_option; intros true Et.
  apply emits_bind_of_option; intros pred Ep.
  apply nth_error_In in Et, Ep.
  specialize (Htl _ Et). specialize (Hpl _ Ep).
  repeat first [ apply emits_bind_of_option; intros ? _
               | apply emits_bind; [|intros ?]
               | apply emits_ret
               | apply emits_emit; cbn; solve [exact I | assumption] ].
Qed.

(** Whatever the input, no scatter call made under [evaluate_model]
    is given an array of labels as its colour argument: each plot is
    coloured by one label of the flattened list. *)
Lemma evaluate_model_scatter_scalars (loader : list batch) (dev : device)
      (visualize : bool) :
  emits_only scalar_coloured
             (evaluate_model model criterion loader dev visualize : M P G O Rng _).
Proof.
  unfold evaluate_model, model_eval, evaluate_loop.
  apply emits_bind; [apply emits_set_training|intros _].
  apply emits_bind;
    [apply emits_no_grad, emits_for_each; intros; apply emits_evaluate_batch
    |intros acc].
  apply emits_bind; [destruct (losses acc); [apply emits_raise|apply emits_ret]
                    |intros avg].
  apply emits_bind; [apply emits_of_result|intros p].
  apply emits_bind; [apply emits_of_result|intros r].
  apply emits_bind; [apply emits_of_result|intros a].
  apply emits_bind; [|intros; apply emits_ret].
  destruct visualize; [|apply emits_ret].
  unfold visualize_predictions. apply emits_for_each. intros _ i.
  apply emits_visualize_sample; apply Forall_forall; intros c Hc;
    apply in_map_iff in Hc as (l & <- & _); now exists l.
Qed.

(** ** Further properties of evaluate_model *)

Lemma logs_ret {A : Type} (a : A) : logs_only (ret a : M P G O Rng A).
Proof. intros w. exists []. cbn. now rewrite logged_nil. Qed.

Lemma logs_raise {A : Type} (e : exn) : logs_only (raise e : M P G O Rng A).
Proof. intros w. exists []. cbn. now rewrite logged_nil. Qed.

Lemma logs_bind {A B : Type} (m : M P G O Rng A) (f : A -> M P G O Rng B) :
  logs_only m -> (forall a, logs_only (f a)) -> logs_only (bind m f).
Proof.
  intros Hm Hf w. unfold bind. destruct (Hm w) as (evs & Hw).
  destruct (m w) as [[a|e] w1]; cbn in *; subst w1.
  - destruct (Hf a (logged w evs)) as (evs' & Hw').
    exists (evs ++ evs'). now rewrite Hw', logged_logged.
  - now exists evs.
Qed.

Lemma logs_emit (e : event) : logs_only (emit e : M P G O Rng unit).
Proof. intros w. now exists [e]. Qed.

Lemma logs_of_option {A : Type} (e : exn) (o : option A) :
  logs_only (of_option e o : M P G O Rng A).
Proof. destruct o; [apply logs_ret|apply logs_raise]. Qed.

Lemma logs_of_result {A : Type} (r : result A) :
  logs_only (of_result r : M P G O Rng A).
Proof. intros w. exists []. cbn. now rewrite logged_nil. Qed.

Lemma logs_no_grad {A : Type} (body : M P G O Rng A) :
  logs_only body -> logs_only (no_grad body).
Proof.
  intros Hb w. unfold no_grad.
  destruct (Hb (set_grad_enabled false w)) as (evs & Hw).
  destruct (body (set_grad_enabled false w)) as [r w']. cbn in *. subst w'.
  now exists evs.
Qed.

Lemma logs_for_each {A S : Type} (body : S -> A -> M P G O Rng S) (xs : list A) :
  (forall s x, logs_only (body s x)) ->
  forall acc, logs_only (for_each body acc xs).
Proof.
  intros Hb. induction xs as [|x r IH]; intros acc; cbn [for_each].
  - apply logs_ret.
  - apply logs_bind; [apply Hb|exact IH].
Qed.

Lemma logs_call_model (x : data) : logs_only (call_model model x : M P G O Rng outputs).
Proof. intros w. now eexists [_]. Qed.

Lemma logs_mean_loss (ls : list Q) : logs_only (mean_loss ls : M P G O Rng Q).
Proof. destruct ls; [apply logs_raise|apply logs_ret]. Qed.

Ltac logs :=
  repeat first
    [ apply logs_bind; [|intros ?]
    | apply logs_ret | apply logs_raise | apply logs_emit | apply logs_of_option
    | apply logs_of_result | apply logs_call_model | apply logs_mean_loss ].

Lemma logs_evaluate_batch (dev : device) (acc : accum) (b : batch) :
  logs_only (evaluate_batch model criterion dev acc b : M P G O Rng accum).
Proof. unfold evaluate_batch, to. logs. Qed.

Lemma logs_visualize_predictions (pcs : list cloud) (tl pl : list color_arg) :
  logs_only (visualize_predictions pcs tl pl : M P G O Rng unit).
Proof.
  unfold visualize_predictions. apply logs_for_each. intros _ i.
  unfold visualize_sample, index, column. logs.
Qed.

Lemma evaluate_model_logs (loader : list batch) (dev : device) (visualize : bool)
      (w : world) :
  exists evs : list event,
    snd (evaluate_model model criterion loader dev visualize w)
    = logged (in_eval_mode w) evs.
Proof.
  unfold evaluate_model. unfold bind at 1. unfold model_eval, set_training.
  fold (in_eval_mode w). generalize (in_eval_mode w).
  match goal with
  | |- forall w0, exists evs, snd (?m w0) = _ => change (logs_only m)
  end.
  apply logs_bind.
  - apply logs_no_grad. unfold evaluate_loop. apply logs_for_each.
    intros; apply logs_evaluate_batch.
  - intros acc. logs.
    destruct visualize; [apply logs_visualize_predictions|apply logs_ret].
Qed.

(** X1.  Whatever the batches, the device and the flag, and whether it
    returns or raises, [evaluate_model] leaves the network in inference
    mode and gradient tracking as it found it (the [no_grad] block
    restores it on the way out, also on an exception);  the stored
    gradients and the optimizer state are untouched, and the log only
    grows. *)
Theorem evaluate_model_state (loader : list batch) (dev : device) (visualize : bool)
        (w : world) :
  w_training (snd (evaluate_model model criterion loader dev visualize w)) = false
  /\ w_grad_enabled (snd (evaluate_model model criterion loader dev visualize w))
     = w_grad_enabled w
  /\ w_grads (snd (evaluate_model model criterion loader dev visualize w)) = w_grads w
  /\ w_opt (snd (evaluate_model model criterion loader dev visualize w)) = w_opt w
  /\ exists evs : list event,
       w_log (snd (evaluate_model model criterion loader dev visualize w))
       = w_log w ++ evs.
Proof.
  destruct (evaluate_model_logs loader dev visualize w) as (evs & ->).
  cbn. repeat split. now exists evs.
Qed.

Lemma evaluate_loop_prefix (dev : device) (loader : list batch) :
  forall (acc : accum) (w : world),
  exists k : nat,
    (k <= length loader)%nat
    /\ snd (for_each (evaluate_batch model criterion dev) acc loader w)
       = logged w (evaluate_events dev (w_training w) (w_grad_enabled w)
                                   (firstn k loader))
    /\ (fst (for_each (evaluate_batch model criterion dev) acc loader w)
        = Raise IndexError
        \/ (k = length loader
            /\ exists acc',
                fst (for_each (evaluate_batch model criterion dev) acc loader w)
                = Ok acc')).
Proof.
  induction loader as [|b r IH]; intros acc w.
  - exists 0%nat. cbn. rewrite logged_nil. split; [lia|]. split; [reflexivity|].
    right. split; [reflexivity|now eexists].
  - cbn [for_each]. unfold bind.
    destruct (argmax_dim2 (fst (model (w_params w) (w_training w) (fst b))))
      as [y|] eqn:Hy.
    + rewrite (evaluate_batch_run dev acc b w Hy).
      match goal with
      | |- context [for_each _ ?a r ?w1] => destruct (IH a w1) as (k & Hk & Hw & Hr)
      end.
      exists (S k). cbn [length firstn]. split; [lia|].
      split.
      * rewrite Hw, logged_logged. reflexivity.
      * destruct Hr as [Hr|(-> & Hr)]; [now left|right; now split].
    + rewrite (evaluate_batch_raises dev acc b w Hy).
      exists 1%nat. cbn [length firstn]. split; [lia|].
      split; [|now left]. cbn. unfold evaluate_events. cbn. reflexivity.
Qed.

Lemma evaluate_loop_raises (dev : device) (loader : list batch) :
  forall (acc : accum) (w : world),
    traverse argmax_dim2 (pass_outputs model (w_params w) (w_training w) loader) = None ->
    fst (for_each (evaluate_batch model criterion dev) acc loader w) = Raise IndexError.
Proof.
  induction loader as [|b r IH]; intros acc w Hp; [discriminate|].
  unfold pass_outputs in Hp. cbn [map traverse] in Hp.
  cbn [for_each]. unfold bind.
  destruct (argmax_dim2 (fst (model (w_params w) (w_training w) (fst b))))
    as [y|] eqn:Hy.
  - rewrite (evaluate_batch_run dev acc b w Hy). apply IH. cbn.
    unfold pass_outputs.
    destruct (traverse argmax_dim2
                (map (fun b => fst (model (w_params w) (w_training w) (fst b))) r));
      [discriminate|reflexivity].
  - now rewrite (evaluate_batch_raises dev acc b w Hy).
Qed.

Lemma effect_free_tail (acc : accum) (w : world) :
  snd (bind (mean_loss (losses acc))
            (fun avg_loss =>
               bind (of_result (precision_score (flatten (all_labels acc))
                                                (flatten (all_preds acc))))
                    (fun precision =>
                       bind (of_result (recall_score (flatten (all_labels acc))
                                                     (flatten (all_preds acc))))
                            (fun recall =>
                               bind (of_result (accuracy_score (flatten (all_labels acc))
                                                               (flatten (all_preds acc))))
                                    (fun accuracy =>
                                       bind (ret tt)
                                            (fun _ => ret (avg_loss, precision, recall,
                                                           accuracy)))))) w)
  = w.
Proof.
  unfold bind, of_result, ret, mean_loss, raise.
  destruct (losses acc); [reflexivity|].
  destruct (precision_score _ _); [|reflexivity].
  destruct (recall_score _ _); [|reflexivity].
  destruct (accuracy_score _ _); reflexivity.
Qed.

(** X2.  Without visualisation, all that [evaluate_model] adds to the
    log are the calls of the batches it went through, each network call
    made in inference mode with gradient tracking off: no optimizer
    step, no backward pass, no printed line, no plot.  Unless it raises
    [IndexError], it went through every batch of the loader. *)
Theorem evaluate_model_calls (loader : list batch) (dev : device) (w : world) :
  exists k : nat,
    (k <= length loader)%nat
    /\ w_log (snd (evaluate_model model criterion loader dev false w))
       = w_log w ++ evaluate_events dev false false (firstn k loader)
    /\ (fst (evaluate_model model criterion loader dev false w) = Raise IndexError
        \/ k = length loader).
Proof.
  destruct (evaluate_model model criterion loader dev false w) as [res w'] eqn:E.
  unfold evaluate_model in E. unfold bind at 1 in E. unfold model_eval, set_training in E.
  unfold bind at 1 in E. unfold no_grad, evaluate_loop in E.
  match type of E with
  | context [for_each _ ?a loader ?w1] =>
      destruct (evaluate_loop_prefix dev loader a w1) as (k & Hk & Hw & Hr);
      destruct (for_each (evaluate_batch model criterion dev) a loader w1)
        as [[acc|e] w2]
  end; cbn [fst snd] in *; subst w2; exists k; (split; [exact Hk|]).
  - apply (f_equal snd) in E. cbn [snd] in E. rewrite effect_free_tail in E.
    subst w'. cbn. split; [reflexivity|].
    destruct Hr as [Hr|[Hr _]]; [discriminate|now right].
  - inversion E; subst. cbn. split; [reflexivity|].
    destruct Hr as [Hr|[_ (acc' & Hr)]]; [inversion Hr; now left|discriminate].
Qed.

(** X3.  When the network scores no class at some point of some batch,
    the arg-max over the class dimension fails and [evaluate_model]
    raises [IndexError], whatever the other batches hold. *)
Theorem evaluate_model_empty_class_dimension (loader : list batch) (dev : device)
        (visualize : bool) (w : world) :
  traverse argmax_dim2 (pass_outputs model (w_params w) false loader) = None ->
  fst (evaluate_model model criterion loader dev visualize w) = Raise IndexError.
Proof.
  intros Hp.
  destruct (evaluate_model model criterion loader dev visualize w) as [res w'] eqn:E.
  unfold evaluate_model in E. unfold bind at 1 in E. unfold model_eval, set_training in E.
  unfold bind at 1 in E. unfold no_grad, evaluate_loop in E.
  match type of E with
  | context [for_each _ ?a loader ?w1] =>
      pose proof (evaluate_loop_raises dev loader a w1 Hp) as Hr;
      destruct (for_each (evaluate_batch model criterion dev) a loader w1)
        as [res0 w2]
  end.
  cbn in Hr. subst res0. now inversion E.
Qed.

(** X4.  When the pass yields a different number of predictions than
    of labels, the metrics are refused: [evaluate_model] raises
    [ValueError] and returns no loss either. *)
Theorem evaluate_model_length_mismatch (loader : list batch) (dev : device)
        (visualize : bool) (w : world) (preds : list labels) :
  traverse argmax_dim2 (pass_outputs model (w_params w) false loader) = Some preds ->
  length (pass_labels loader) <> length (pass_preds preds) ->
  fst (evaluate_model model criterion loader dev visualize w) = Raise ValueError.
Proof.
  intros Hp Hlen.
  assert (Hne : loader <> []).
  { intros ->. cbn in Hp. inversion Hp; subst. now apply Hlen. }
  destruct (evaluate_model model criterion loader dev visualize w) as [res w'] eqn:E.
  unfold evaluate_model in E. unfold bind at 1 in E. unfold model_eval, set_training in E.
  unfold bind at 1 in E. unfold no_grad, evaluate_loop in E.
  rewrite (evaluate_loop_from dev loader _ _ (preds := preds)) in E by exact Hp.
  cbn [app losses all_labels all_preds] in E.
  unfold bind, mean_loss in E.
  destruct (pass_losses model criterion _ _ loader) eqn:El;
    [destruct loader; [congruence|discriminate]|].
  unfold ret, of_result, precision_score in E.
  fold (pass_labels loader) in E. fold (pass_preds preds) in E.
  destruct (Nat.eqb_spec (length (pass_labels loader)) (length (pass_preds preds)));
    [contradiction|]. now inversion E.
Qed.

(** X5.  Visualisation is observational: when [evaluate_model] returns
    with [visualize=True], it returns the same four values as with
    [visualize=False], and the two final states differ only by the plot
    events in the log. *)
Theorem evaluate_model_visualize_observational (loader : list batch) (dev : device)
        (w w' : world) (metrics : Q * number * number * number) :
  evaluate_model model criterion loader dev true w = (Ok metrics, w') ->
  exists (w'' : world) (plots : list event),
    evaluate_model model criterion loader dev false w = (Ok metrics, w'')
    /\ w' = logged w'' plots.
Proof.
  intros H.
  destruct (evaluate_model model criterion loader dev false w) as [res w''] eqn:E.
  unfold evaluate_model in H, E.
  unfold bind at 1 in H. unfold bind at 1 in E. unfold model_eval, set_training in H, E.
  unfold bind at 1 in H. unfold bind at 1 in E.
  destruct (no_grad (evaluate_loop model criterion loader dev) _) as [[acc|e] w1];
    [|discriminate].
  unfold bind at 1 in H. unfold bind at 1 in E.
  destruct (mean_loss (losses acc) w1) as [[avg|e] w2]; [|discriminate].
  unfold bind at 1 in H. unfold bind at 1 in E.
  destruct (of_result (precision_score _ _) w2) as [[p|e] w3]; [|discriminate].
  unfold bind at 1 in H. unfold bind at 1 in E.
  destruct (of_result (recall_score _ _) w3) as [[r|e] w4]; [|discriminate].
  unfold bind at 1 in H. unfold bind at 1 in E.
  destruct (of_result (accuracy_score _ _) w4) as [[a|e] w5]; [|discriminate].
  unfold bind in H, E.
  destruct (logs_visualize_predictions (point_clouds acc)
              (map CScalar (flatten (all_labels acc)))
              (map CScalar (flatten (all_preds acc))) w5) as (evs & Hw).
  destruct (visualize_predictions _ _ _ w5) as [[[]|e] w6]; [|discriminate].
  cbn in Hw. subst w6. unfold ret in H, E. inversion H; subst. inversion E; subst.
  eexists _, evs. split; reflexivity.
Qed.

(** ** visualize_predictions on its own *)

Lemma column_total (pc : cloud) (k : nat) :
  Forall (fun row => (k < length row)%nat) pc ->
  exists xs, traverse (fun row => nth_error row k) pc = Some xs.
Proof.
  intros H. apply traverse_total. eapply Forall_impl; [|exact H].
  intros row Hrow. cbn in Hrow.
  destruct (nth_error row k) eqn:E; [now eexists|].
  apply nth_error_None in E. lia.
Qed.

Lemma column_some (pc : cloud) (k : nat) (xs : list Q) :
  traverse (fun row => nth_error row k) pc = Some xs ->
  Forall (fun row => (k < length row)%nat) pc.
Proof.
  revert xs. induction pc as [|row r IH]; intros xs H; [constructor|].
  apply traverse_cons_inv in H as (x & xs' & Hx & Hxs & _).
  constructor; [|now apply (IH xs')].
  apply nth_error_Some. congruence.
Qed.

Lemma visualize_sample_run (pcs : list cloud) (tl pl : list color_arg) (i : nat)
      (w : world) (pc : cloud) (t p : color_arg) :
  nth_error pcs i = Some pc -> nth_error tl i = Some t -> nth_error pl i = Some p ->
  three_columns pc ->
  exists evs,
    visualize_sample pcs tl pl i w = (Ok tt, logged w evs)
    /\ scatter_colours evs = [t; p]
    /\ windows evs = 1%nat.
Proof.
  intros Hpc Ht Hp H3.
  destruct (@column_total pc 0) as (xs & Hxs);
    [eapply Forall_impl; [|exact H3]; cbn; lia|].
  destruct (@column_total pc 1) as (ys & Hys);
    [eapply Forall_impl; [|exact H3]; cbn; lia|].
  destruct (@column_total pc 2) as (zs & Hzs);
    [eapply Forall_impl; [|exact H3]; cbn; lia|].
  exists [EvFigure;
          EvScatter (mkScatter xs ys zs t marker_o (1 # 2) "True Labels" 10);
          EvScatter (mkScatter xs ys zs p marker_x (1 # 2) "Predicted Labels" 20);
          EvTitle i; EvLegend; EvShow].
  unfold visualize_sample, index, column, bind, of_option.
  rewrite Hpc, Ht, Hp. cbn -[traverse nth_error]. rewrite Hxs. cbn -[traverse nth_error].
  rewrite Hys. cbn -[traverse nth_error]. rewrite Hzs. cbn.
  unfold emit, logged. cbn. rewrite <- !app_assoc. cbn.
  repeat split.
Qed.

Lemma visualize_sample_inv (pcs : list cloud) (tl pl : list color_arg) (i : nat)
      (w : world) :
  match fst (visualize_sample pcs tl pl i w) with
  | Ok _ =>
      exists pc t p,
        nth_error pcs i = Some pc /\ nth_error tl i = Some t
        /\ nth_error pl i = Some p /\ three_columns pc
  | Raise e => e = IndexError
  end.
Proof.
  unfold visualize_sample, index, column, bind, of_option.
  destruct (nth_error pcs i) as [pc|]; [|reflexivity]. cbn -[traverse nth_error].
  destruct (nth_error tl i) as [t|]; [|reflexivity]. cbn -[traverse nth_error].
  destruct (nth_error pl i) as [p|]; [|reflexivity]. cbn -[traverse nth_error].
  destruct (traverse (fun row => nth_error row 0) pc) as [xs|]; [|reflexivity].
  cbn -[traverse nth_error].
  destruct (traverse (fun row => nth_error row 1) pc) as [ys|]; [|reflexivity].
  cbn -[traverse nth_error].
  destruct (traverse (fun row => nth_error row 2) pc) as [zs|] eqn:Hzs; [|reflexivity].
  cbn. exists pc, t, p. repeat split; try reflexivity.
  eapply Forall_impl; [|exact (column_some _ _ Hzs)]. cbn. intros; lia.
Qed.

Lemma scatter_colours_app (l l' : list event) :
  scatter_colours (l ++ l') = scatter_colours l ++ scatter_colours l'.
Proof. unfold scatter_colours. apply flat_map_app. Qed.

Lemma windows_app (l l' : list event) :
  windows (l ++ l') = (windows l + windows l')%nat.
Proof. unfold windows. now rewrite filter_app, length_app. Qed.

Lemma visualize_loop_run (pcs : list cloud) (tl pl : list color_arg) (d : color_arg)
      (indices : list nat) :
  Forall (fun i => (i < length pcs)%nat) indices ->
  (length pcs <= length tl)%nat -> (length pcs <= length pl)%nat ->
  Forall three_columns pcs ->
  forall w : world,
  exists evs,
    for_each (fun _ i => visualize_sample pcs tl pl i) tt indices w
    = (Ok tt, logged w evs)
    /\ scatter_colours evs = flat_map (fun i => [nth i tl d; nth i pl d]) indices
    /\ windows evs = length indices.
Proof.
  intros Hidx Htl Hpl H3. induction Hidx as [|i r Hi _ IH]; intros w.
  - exists []. cbn. now rewrite logged_nil.
  - destruct (nth_error pcs i) as [pc|] eqn:Epc;
      [|apply nth_error_None in Epc; lia].
    destruct (nth_error tl i) as [t|] eqn:Et;
      [|apply nth_error_None in Et; lia].
    destruct (nth_error pl i) as [p|] eqn:Ep;
      [|apply nth_error_None in Ep; lia].
    assert (Hpc3 : three_columns pc).
    { rewrite Forall_forall in H3. apply H3. eapply nth_error_In; eauto. }
    destruct (visualize_sample_run pcs tl pl i w Epc Et Ep Hpc3)
      as (evs1 & Hrun1 & Hc1 & Hw1).
    destruct (IH (logged w evs1)) as (evs2 & Hrun2 & Hc2 & Hw2).
    exists (evs1 ++ evs2). cbn [for_each]. unfold bind. rewrite Hrun1, Hrun2.
    rewrite logged_logged. split; [reflexivity|].
    rewrite scatter_colours_app, windows_app, Hc1, Hc2, Hw1, Hw2.
    cbn [flat_map length]. split; [|reflexivity].
    now rewrite (nth_error_nth _ _ d Et), (nth_error_nth _ _ d Ep).
Qed.

Lemma visualize_predictions_closed (pcs : list cloud) (tl pl : list color_arg)
        (d : color_arg) (w : world) :
  (length pcs <= length tl)%nat -> (length pcs <= length pl)%nat ->
  Forall three_columns pcs ->
  exists evs,
    visualize_predictions pcs tl pl w = (Ok tt, logged w evs)
    /\ scatter_colours evs
       = flat_map (fun i => [nth i tl d; nth i pl d]) (seq 0 (length pcs))
    /\ windows evs = length pcs.
Proof.
  intros Htl Hpl H3. unfold visualize_predictions.
  destruct (@visualize_loop_run pcs tl pl d (seq 0 (length pcs))) with (w := w)
    as (evs & Hrun & Hc & Hw); try assumption.
  - apply Forall_forall. intros i Hi. apply in_seq in Hi. lia.
  - exists evs. rewrite length_seq in Hw. now repeat split.
Qed.

(** X6.  Called with one colour argument per point cloud in each
    list, each accepted by the scatter plot for its cloud, on point
    clouds whose rows have three coordinates, [visualize_predictions]
    returns, shows exactly one window per point cloud, and makes two
    scatter calls per window, coloured by the entry of [true_labels]
    and by the entry of [predicted_labels] at the index of the point
    cloud. *)
Theorem visualize_predictions_run (pcs : list cloud) (tl pl : list color_arg)
        (d : color_arg) (w : world) :
  (length pcs <= length tl)%nat -> (length pcs <= length pl)%nat ->
  Forall three_columns pcs ->
  colours_accepted pcs tl -> colours_accepted pcs pl ->
  exists evs,
    visualize_predictions pcs tl pl w = (Ok tt, logged w evs)
    /\ scatter_colours evs
       = flat_map (fun i => [nth i tl d; nth i pl d]) (seq 0 (length pcs))
    /\ windows evs = length pcs.
Proof. intros Htl Hpl H3 _ _. now apply visualize_predictions_closed. Qed.

Lemma visualize_loop_inv (pcs : list cloud) (tl pl : list color_arg)
      (indices : list nat) :
  forall w : world,
    match fst (for_each (fun _ i => visualize_sample pcs tl pl i) tt indices w) with
    | Ok _ =>
        Forall (fun i => exists pc t p,
                    nth_error pcs i = Some pc /\ nth_error tl i = Some t
                    /\ nth_error pl i = Some p /\ three_columns pc) indices
    | Raise e => e = IndexError
    end.
Proof.
  induction indices as [|i r IH]; intros w; cbn [for_each].
  - constructor.
  - unfold bind. pose proof (visualize_sample_inv pcs tl pl i w) as Hi.
    destruct (visualize_sample pcs tl pl i w) as [[[]|e] w1]; cbn [fst] in Hi.
    + specialize (IH w1).
      destruct (for_each _ tt r w1) as [[[]|e] w2]; cbn [fst] in *.
      * now constructor.
      * exact IH.
    + exact Hi.
Qed.

(** X7.  When a label list is shorter than the list of point clouds,
    or some point cloud has a row with fewer than three coordinates,
    and the colours that are there are accepted by the scatter plot for
    the cloud of their index, [visualize_predictions] raises
    [IndexError]. *)
Theorem visualize_predictions_index_error (pcs : list cloud) (tl pl : list color_arg)
        (w : world) :
  colours_accepted pcs tl -> colours_accepted pcs pl ->
  ~ ((length pcs <= length tl)%nat /\ (length pcs <= length pl)%nat
     /\ Forall three_columns pcs) ->
  fst (visualize_predictions pcs tl pl w) = Raise IndexError.
Proof.
  intros _ _ Hnot. unfold visualize_predictions.
  pose proof (visualize_loop_inv pcs tl pl (seq 0 (length pcs)) w) as H.
  destruct (for_each _ tt (seq 0 (length pcs)) w) as [[[]|e] w1]; cbn [fst] in *;
    [|now subst].
  exfalso. apply Hnot. rewrite Forall_forall in H.
  assert (Hi : forall i, (i < length pcs)%nat ->
                         exists pc t p,
                           nth_error pcs i = Some pc /\ nth_error tl i = Some t
                           /\ nth_error pl i = Some p /\ three_columns pc).
  { intros i Hi. apply H, in_seq. lia. }
  repeat split.
  - destruct (Nat.le_gt_cases (length pcs) (length tl)) as [|Hlt]; [assumption|].
    destruct (Hi (length tl) Hlt) as (_ & t & _ & _ & Ht & _).
    assert (nth_error tl (length tl) = None) by (apply nth_error_None; lia).
    congruence.
  - destruct (Nat.le_gt_cases (length pcs) (length pl)) as [|Hlt]; [assumption|].
    destruct (Hi (length pl) Hlt) as (_ & _ & p & _ & _ & Hp & _).
    assert (nth_error pl (length pl) = None) by (apply nth_error_None; lia).
    congruence.
  - apply Forall_forall. intros pc Hpc.
    apply In_nth_error in Hpc as (i & Hpc).
    assert (Hlt : (i < length pcs)%nat) by (apply nth_error_Some; congruence).
    destruct (Hi i Hlt) as (pc' & _ & _ & Hpc' & _ & _ & H3). congruence.
Qed.

Lemma single_point_colours (pcs : list cloud) (ls : list label) :
  Forall (fun pc : cloud => length pc = 1%nat) pcs ->
  colours_accepted pcs (map CScalar ls).
Proof.
  intros H i pc c Hpc Hc.
  apply nth_error_In in Hpc. rewrite Forall_forall in H.
  rewrite nth_error_map in Hc. destruct (nth_error ls i); [|discriminate].
  inversion Hc. cbn. now apply H.
Qed.

(** X8.  With [visualize=True], on a pass that goes through, over
    point clouds of one point each (the clouds for which the scatter
    plot accepts the single label that [evaluate_model] hands over as
    colour) with three coordinates per point and at least as many
    labelled points as samples, [evaluate_model] returns after showing
    one window per sample of the pass;  the two scatter calls of window
    [i] are coloured by entry [i] of the flattened true labels and
    entry [i] of the flattened predictions. *)
Theorem evaluate_model_visualize_windows (loader : list batch) (dev : device)
        (w : world) (preds : list labels) :
  loader <> [] ->
  traverse argmax_dim2 (pass_outputs model (w_params w) false loader) = Some preds ->
  length (pass_labels loader) = length (pass_preds preds) ->
  (length (flat_map fst loader) <= length (pass_labels loader))%nat ->
  Forall three_columns (flat_map fst loader) ->
  Forall (fun pc : cloud => length pc = 1%nat) (flat_map fst loader) ->
  exists (metrics : Q * number * number * number) (plots : list event),
    evaluate_model model criterion loader dev true w
    = (Ok metrics, logged (evaluated w dev loader) plots)
    /\ colours_accepted (flat_map fst loader) (map CScalar (pass_labels loader))
    /\ colours_accepted (flat_map fst loader) (map CScalar (pass_preds preds))
    /\ windows plots = length (flat_map fst loader)
    /\ scatter_colours plots
       = flat_map (fun i => [CScalar (nth i (pass_labels loader) 0%Z);
                             CScalar (nth i (pass_preds preds) 0%Z)])
                  (seq 0 (length (flat_map fst loader))).
Proof.
  intros Hne Hp Hlen Hsamples H3 H1.
  destruct (@visualize_predictions_closed
              (flat_map fst loader)
              (map CScalar (pass_labels loader)) (map CScalar (pass_preds preds))
              (CScalar 0%Z) (evaluated w dev loader))
    as (plots & Hrun & Hc & Hw);
    [rewrite length_map; exact Hsamples
    |rewrite length_map, <- Hlen; exact Hsamples
    |exact H3|].
  destruct (evaluate_model model criterion loader dev true w) as [res w'] eqn:E.
  unfold evaluate_model in E. unfold bind at 1 in E. unfold model_eval, set_training in E.
  unfold bind at 1 in E. unfold no_grad, evaluate_loop in E.
  rewrite (evaluate_loop_from dev loader _ _ (preds := preds)) in E by exact Hp.
  cbn [app losses all_labels all_preds point_clouds] in E.
  unfold bind at 1 in E. unfold mean_loss in E.
  destruct (pass_losses model criterion _ _ loader) as [|l0 ls] eqn:El;
    [destruct loader; [congruence|discriminate]|].
  unfold ret at 1 in E.
  fold (pass_labels loader) in E. fold (pass_preds preds) in E.
  unfold bind at 1 in E. unfold of_result at 1 in E.
  unfold precision_score at 1 in E. rewrite Hlen, Nat.eqb_refl in E.
  unfold bind at 1 in E. unfold of_result at 1 in E.
  unfold recall_score at 1 in E. rewrite Hlen, Nat.eqb_refl in E.
  unfold bind at 1 in E. unfold of_result at 1 in E.
  unfold accuracy_score at 1 in E. rewrite Hlen, Nat.eqb_refl in E.
  unfold bind at 1 in E.
  change (set_grad_enabled _ (logged (set_grad_enabled false _) _))
    with (evaluated w dev loader) in E.
  rewrite Hrun in E. unfold ret in E. inversion E; subst.
  eexists _, plots. split; [reflexivity|].
  split; [now apply single_point_colours|].
  split; [now apply single_point_colours|].
  split; [exact Hw|].
  rewrite Hc. apply flat_map_ext. intros i.
  now rewrite !(map_nth CScalar).
Qed.

(** ** Further properties of the training loop *)

Lemma train_batch_trace (dev : device) (optimizer : Adam) (b : batch) (w : world) :
  w_grad_enabled w = true ->
  let g := grad_add grad_zero
                    (grad_loss (w_params w) (w_training w) (fst b) (snd b)) in
  let po := adam_step (lr optimizer) (weight_decay optimizer)
                      (w_opt w) (w_params w) g in
  train_batch model criterion grad_loss grad_zero grad_add adam_step dev optimizer b w
  = (Ok tt,
     mkWorld (fst po) (w_training w) true g (snd po) (w_rng w)
             (w_log w ++ train_events model criterion dev (w_training w) (w_params w) b)).
Proof.
  intros Hg g po.
  unfold train_batch, bind, to, zero_grad, call_model, backward, step, emit, ret.
  cbn. rewrite Hg. subst po g.
  destruct (adam_step _ _ _ _ _) as [p o]. cbn.
  unfold train_events. rewrite <- !app_assoc. reflexivity.
Qed.

Lemma batch_sampler_concat (bs : nat) (sampler : list nat) :
  forall batch : list nat,
    concat (batch_sampler bs batch sampler) = batch ++ sampler.
Proof.
  induction sampler as [|idx rest IH]; intros batch; cbn [batch_sampler].
  - destruct batch; cbn; [reflexivity|now rewrite !app_nil_r].
  - destruct (Nat.eqb (length (batch ++ [idx])) bs); cbn [concat].
    + rewrite IH. cbn. now rewrite <- app_assoc.
    + rewrite IH. now rewrite <- app_assoc.
Qed.

Lemma traverse_nth_error {A : Type} (l : list A) (d : A) (indices : list nat) :
  Forall (fun i => (i < length l)%nat) indices ->
  traverse (nth_error l) indices = Some (map (fun i => nth i l d) indices).
Proof.
  induction 1 as [|i r Hi _ IH]; cbn; [reflexivity|].
  destruct (nth_error l i) as [x|] eqn:E; [|apply nth_error_None in E; lia].
  now rewrite IH, (nth_error_nth _ _ d E).
Qed.

Lemma map_nth_seq {A : Type} (d : A) (l : list A) :
  forall pre : list A,
    map (fun i => nth i (pre ++ l) d) (seq (length pre) (length l)) = l.
Proof.
  induction l as [|x r IH]; intros pre; cbn; [reflexivity|].
  rewrite nth_middle. f_equal.
  specialize (IH (pre ++ [x])). rewrite <- app_assoc, length_app in IH. cbn in IH.
  now rewrite Nat.add_1_r in IH.
Qed.

Lemma fetch_loop_exact (dataset : list sample) (d : sample) (groups : list (list nat)) :
  Forall (Forall (fun i => (i < length dataset)%nat)) groups ->
  forall (acc : list batch) (w : world),
    for_each (fun acc group => bind (fetch dataset group) (fun b => ret (acc ++ [b])))
             acc groups w
    = (Ok (acc ++ map (fun group => collate (map (fun i => nth i dataset d) group))
                      groups), w).
Proof.
  induction 1 as [|group rest Hg _ IH]; intros acc w.
  - cbn. now rewrite app_nil_r.
  - cbn [for_each map]. unfold bind at 1. unfold bind at 1. unfold fetch at 1.
    unfold bind at 1. rewrite (@traverse_nth_error _ dataset d group Hg). cbn.
    rewrite IH, <- app_assoc. reflexivity.
Qed.

Lemma collated_samples (dataset : list sample) (d : sample) (groups : list (list nat)) :
  flat_map fst (map (fun group => collate (map (fun i => nth i dataset d) group)) groups)
  = map (fun i => fst (nth i dataset d)) (concat groups).
Proof.
  induction groups as [|g r IH]; cbn; [reflexivity|].
  now rewrite IH, map_app, map_map.
Qed.

(** One pass over a loader hands out every sample of the dataset
    exactly once, in dataset order when the loader does not shuffle. *)
Lemma iterate_samples (dl : DataLoader) (w : world) :
  exists (batches : list batch) (w' : world),
    iterate randperm dl w = (Ok batches, w')
    /\ same_but_rng w w'
    /\ Permutation (flat_map fst batches) (map fst (dl_dataset dl))
    /\ (dl_shuffle dl = false -> flat_map fst batches = map fst (dl_dataset dl)).
Proof.
  set (d := (@nil (list Q), @nil label) : sample).
  destruct (sampler_run dl w) as (indices & w' & Hs & Hperm & Hsame).
  assert (Hidx : Forall (fun i => (i < length (dl_dataset dl))%nat) indices).
  { apply Forall_forall. intros i Hi.
    apply (Permutation_in _ Hperm), in_seq in Hi. lia. }
  pose proof (@fetch_loop_exact (dl_dataset dl) d _
                (batch_sampler_indices (dl_batch_size dl) Hidx (Forall_nil _)) [] w')
    as Hrun.
  eexists _, w'. unfold iterate. unfold bind at 1. rewrite Hs, Hrun.
  split; [reflexivity|]. split; [exact Hsame|]. cbn [app].
  rewrite collated_samples, batch_sampler_concat. cbn [app].
  assert (Hall : map (fun i => fst (nth i (dl_dataset dl) d))
                     (seq 0 (length (dl_dataset dl)))
                 = map fst (dl_dataset dl)).
  { rewrite <- (map_map (fun i => nth i (dl_dataset dl) d) fst).
    f_equal. exact (map_nth_seq d (dl_dataset dl) []). }
  split.
  - rewrite <- Hall. now apply Permutation_map.
  - intros Hsh. rewrite <- Hall. f_equal.
    unfold sampler in Hs. rewrite Hsh in Hs. now inversion Hs.
Qed.

Lemma train_loop_trace (dev : device) (optimizer : Adam) (batches : list batch) :
  forall w : world,
    w_grad_enabled w = true ->
    exists (w' : world) (evs : list event),
      for_each (fun _ b => train_batch model criterion grad_loss grad_zero grad_add
                                       adam_step dev optimizer b)
               tt batches w
      = (Ok tt, w')
      /\ w_log w' = w_log w ++ evs
      /\ forward_inputs evs = flat_map fst batches
      /\ w_grad_enabled w' = true /\ w_training w' = w_training w
      /\ w_rng w' = w_rng w.
Proof.
  induction batches as [|b r IH]; intros w Hg.
  - exists w, []. cbn. rewrite app_nil_r. now repeat split.
  - pose proof (train_batch_trace dev optimizer b w Hg) as H1. cbn zeta in H1.
    match type of H1 with _ = (_, ?w1) => destruct (IH w1 eq_refl)
        as (w2 & evs & H2 & Hlog & Hin & Hg2 & Ht2 & Hr2) end.
    eexists w2, (_ ++ evs). cbn [for_each]. unfold bind at 1. rewrite H1, H2.
    split; [reflexivity|]. cbn [w_log w_training w_rng] in *.
    split; [rewrite Hlog, <- app_assoc; reflexivity|].
    split; [|now repeat split].
    unfold forward_inputs in *. rewrite flat_map_app, Hin. cbn.
    now rewrite app_nil_r.
Qed.

(** X10.  One pass of the training loop hands every sample of the
    dataset to the network exactly once: the point clouds of the
    forward calls of the epoch are a permutation of the point clouds of
    the dataset (in dataset order when the loader does not shuffle). *)
Theorem train_epoch_visits_each_sample_once (train_loader : DataLoader) (dev : device)
        (optimizer : Adam) (w : world) :
  w_grad_enabled w = true ->
  exists (w' : world) (evs : list event),
    train_epoch model criterion randperm grad_loss grad_zero grad_add adam_step
                train_loader dev optimizer w
    = (Ok tt, w')
    /\ w_log w' = w_log w ++ evs
    /\ Permutation (forward_inputs evs) (map fst (dl_dataset train_loader))
    /\ (dl_shuffle train_loader = false ->
        forward_inputs evs = map fst (dl_dataset train_loader)).
Proof.
  intros Hg.
  destruct (iterate_samples train_loader w)
    as (batches & w1 & Hit & Hsame & Hperm & Hord).
  destruct Hsame as (_ & _ & Hg1 & _ & _ & Hlog1).
  destruct (train_loop_trace dev optimizer batches w1)
    as (w2 & evs & Hrun & Hlog & Hin & _); [congruence|].
  exists w2, evs. unfold train_epoch, bind. rewrite Hit, Hrun.
  split; [reflexivity|]. split; [congruence|].
  rewrite Hin. now split.
Qed.

(** ** What a computation may add to the log *)

Section Tame.

Variable good : event -> Prop.

Lemma tame_quiet {A : Type} (m : M P G O Rng A) :
  (forall w, w_grad_enabled (snd (m w)) = w_grad_enabled w
             /\ w_log (snd (m w)) = w_log w) ->
  tame good m.
Proof.
  intros H w. destruct (H w) as [Hg Hl]. split; [exact Hg|].
  exists []. rewrite app_nil_r. now split.
Qed.

Lemma tame_ret {A : Type} (a : A) : tame good (ret a : M P G O Rng A).
Proof. apply tame_quiet. now intros w. Qed.

Lemma tame_raise {A : Type} (e : exn) : tame good (raise e : M P G O Rng A).
Proof. apply tame_quiet. now intros w. Qed.

Lemma tame_of_option {A : Type} (e : exn) (o : option A) :
  tame good (of_option e o : M P G O Rng A).
Proof. destruct o; [apply tame_ret|apply tame_raise]. Qed.

Lemma tame_of_result {A : Type} (r : result A) :
  tame good (of_result r : M P G O Rng A).
Proof. apply tame_quiet. now intros w. Qed.

Lemma tame_bind_ok {A B : Type} (m : M P G O Rng A) (f : A -> M P G O Rng B) :
  tame good m ->
  (forall w a w1, m w = (Ok a, w1) -> tame good (f a)) ->
  tame good (bind m f).
Proof.
  intros Hm Hf w. unfold bind. destruct (Hm w) as (Hg & evs & Hlog & Hgood).
  destruct (m w) as [[a|e] w1] eqn:E; cbn [snd] in *.
  - destruct (Hf w a w1 E w1) as (Hg' & evs' & Hlog' & Hgood').
    split; [congruence|]. exists (evs ++ evs').
    rewrite Hlog', Hlog, app_assoc. split; [reflexivity|].
    apply Forall_app. now split.
  - split; [exact Hg|]. now exists evs.
Qed.

Lemma tame_bind {A B : Type} (m : M P G O Rng A) (f : A -> M P G O Rng B) :
  tame good m -> (forall a, tame good (f a)) -> tame good (bind m f).
Proof. intros Hm Hf. apply tame_bind_ok; [exact Hm|intros; apply Hf]. Qed.

Lemma tame_emit (e : event) : good e -> tame good (emit e : M P G O Rng unit).
Proof.
  intros He w. split; [reflexivity|]. exists [e]. split; [reflexivity|].
  now constructor.
Qed.

Lemma tame_for_each {A S : Type} (body : S -> A -> M P G O Rng S) (xs : list A) :
  (forall s x, tame good (body s x)) ->
  forall acc, tame good (for_each body acc xs).
Proof.
  intros Hb. induction xs as [|x r IH]; intros acc; cbn [for_each].
  - apply tame_ret.
  - apply tame_bind; [apply Hb|exact IH].
Qed.

Lemma tame_no_grad {A : Type} (body : M P G O Rng A) :
  tame good body -> tame good (no_grad body).
Proof.
  intros Hb w. unfold no_grad.
  destruct (Hb (set_grad_enabled false w)) as (_ & evs & Hlog & Hgood).
  destruct (body (set_grad_enabled false w)) as [r w']. cbn in *.
  split; [reflexivity|]. now exists evs.
Qed.

Lemma tame_set_training (b : bool) : tame good (set_training b : M P G O Rng unit).
Proof. apply tame_quiet. now intros w. Qed.

Lemma tame_mean_loss (ls : list Q) : tame good (mean_loss ls : M P G O Rng Q).
Proof. destruct ls; [apply tame_raise|apply tame_ret]. Qed.

Lemma tame_call_model (x : data) :
  (forall t g, good (EvForward t g x)) ->
  tame good (call_model model x : M P G O Rng outputs).
Proof.
  intros Hx w. split; [reflexivity|]. eexists [_]. split; [reflexivity|].
  constructor; [apply Hx|constructor].
Qed.

Lemma tame_to {A : Type} (dev : device) (t : A) :
  good (EvTo dev) -> tame good (to dev t : M P G O Rng A).
Proof.
  intros Hd. unfold to. apply tame_bind; [now apply tame_emit|intros; apply tame_ret].
Qed.

Lemma tame_sampler (dl : DataLoader) :
  tame good (sampler randperm dl : M P G O Rng (list nat)).
Proof.
  apply tame_quiet. intros w. unfold sampler.
  destruct (dl_shuffle dl); [|now split].
  destruct (randperm (w_rng w) (length (dl_dataset dl))). now split.
Qed.

Lemma tame_iterate (dl : DataLoader) :
  tame good (iterate randperm dl : M P G O Rng (list batch)).
Proof.
  unfold iterate. apply tame_bind; [apply tame_sampler|intros indices].
  apply tame_for_each. intros acc group. unfold fetch.
  apply tame_bind; [|intros; apply tame_ret].
  apply tame_bind; [apply tame_of_option|intros; apply tame_ret].
Qed.

Lemma tame_new_DataLoader (dataset : list sample) (batch_size : Z) (shuffle : bool) :
  tame good (new_DataLoader dataset batch_size shuffle : M P G O Rng DataLoader).
Proof.
  unfold new_DataLoader. destruct (batch_size <=? 0)%Z; [apply tame_raise|].
  destruct (shuffle && Nat.eqb (length dataset) 0); [apply tame_raise|apply tame_ret].
Qed.

Lemma tame_new_Adam (learning_rate decay_rate : Q) :
  tame good (new_Adam adam_init learning_rate decay_rate : M P G O Rng Adam).
Proof.
  unfold new_Adam. destruct (Qlt_le_dec learning_rate 0); [apply tame_raise|].
  destruct (Qlt_le_dec decay_rate 0); [apply tame_raise|].
  apply tame_quiet. now intros w.
Qed.

Lemma tame_init_model (num_class : Z) (dev : device) :
  good (EvTo dev) -> tame good (init_model get_model num_class dev : M P G O Rng unit).
Proof.
  intros Hd. unfold init_model. apply tame_bind; [|intros; now apply tame_emit].
  apply tame_quiet. intros w. destruct (get_model num_class (w_rng w)). now split.
Qed.

Lemma tame_getattr (args : namespace) (name : string) :
  tame good (getattr args name : M P G O Rng value).
Proof. apply tame_of_option. Qed.

Lemma tame_as_int (v : value) : tame good (as_int v : M P G O Rng Z).
Proof. destruct v; first [apply tame_ret|apply tame_raise]. Qed.

Lemma tame_as_float (v : value) : tame good (as_float v : M P G O Rng Q).
Proof. destruct v; first [apply tame_ret|apply tame_raise]. Qed.

Lemma tame_select_device (args : namespace) :
  tame good (select_device cuda_is_available args : M P G O Rng device).
Proof.
  unfold select_device. destruct cuda_is_available; [|apply tame_ret].
  apply tame_bind; [apply tame_getattr|intros; apply tame_ret].
Qed.

Lemma tame_evaluate_model (loader : list batch) (dev : device) (visualize : bool) :
  good (EvTo dev) ->
  (forall t g x, good (EvForward t g x)) ->
  (visualize = true ->
   good EvFigure /\ (forall c, good (EvScatter c)) /\ (forall i, good (EvTitle i))
   /\ good EvLegend /\ good EvShow) ->
  tame good (evaluate_model model criterion loader dev visualize
             : M P G O Rng _).
Proof.
  intros Hto Hfw Hplot. unfold evaluate_model, model_eval, evaluate_loop.
  apply tame_bind; [apply tame_set_training|intros _].
  apply tame_bind.
  { apply tame_no_grad, tame_for_each. intros acc b. unfold evaluate_batch.
    repeat first [ apply tame_bind; [|intros ?]
                 | apply tame_to; exact Hto
                 | apply tame_call_model; intros; apply Hfw
                 | apply tame_of_option | apply tame_ret ]. }
  intros acc.
  apply tame_bind; [apply tame_mean_loss|intros avg].
  apply tame_bind; [apply tame_of_result|intros p].
  apply tame_bind; [apply tame_of_result|intros r].
  apply tame_bind; [apply tame_of_result|intros a].
  apply tame_bind; [|intros; apply tame_ret].
  destruct visualize; [|apply tame_ret].
  destruct (Hplot eq_refl) as (Hf & Hs & Ht & Hl & Hsh).
  unfold visualize_predictions. apply tame_for_each. intros _ i.
  unfold visualize_sample, index, column.
  repeat first [ apply tame_bind; [|intros ?]
               | apply tame_of_option | apply tame_ret
               | apply tame_emit; first [exact Hf|apply Hs|apply Ht|exact Hl|exact Hsh] ].
Qed.

End Tame.

(** X11.  Whatever its input and whether it returns or raises,
    [evaluate_model] never calls [optimizer.step()], [zero_grad()] or
    [backward()] and never prints: all it adds to the log are tensor
    moves, network calls and, when asked to visualise, plot calls. *)
Theorem evaluate_model_passive (loader : list batch) (dev : device)
        (visualize : bool) (w : world) :
  exists evs : list event,
    w_log (snd (evaluate_model model criterion loader dev visualize w)) = w_log w ++ evs
    /\ Forall passive evs.
Proof.
  apply (@tame_evaluate_model passive loader dev visualize); cbn; auto.
Qed.

(** ** Further properties of main *)

Section TameTraining.

Variable good : event -> Prop.
Variable dev : device.
Hypothesis good_to : good (EvTo dev).
Hypothesis good_zero_grad : good EvZeroGrad.
Hypothesis good_backward : good EvBackward.
Hypothesis good_step : good EvStep.
Hypothesis good_forward : forall t g x, good (EvForward t g x).
Hypothesis good_print : forall m, good (EvPrint m).

Lemma tame_train_batch (optimizer : Adam) (b : batch) :
  tame good (train_batch model criterion grad_loss grad_zero grad_add adam_step
                         dev optimizer b : M P G O Rng unit).
Proof.
  unfold train_batch.
  apply tame_bind; [apply tame_to, good_to|intros x].
  apply tame_bind; [apply tame_to, good_to|intros y].
  apply tame_bind.
  { unfold zero_grad. apply tame_bind; [apply tame_emit, good_zero_grad|intros _].
    apply tame_quiet. now intros w. }
  intros _.
  apply tame_bind; [apply tame_call_model; intros; apply good_forward|intros out].
  apply tame_bind; [apply tame_emit, good_print|intros _].
  apply tame_bind; [apply tame_emit, good_print|intros _].
  apply tame_bind; [apply tame_emit, good_print|intros _].
  apply tame_bind.
  { unfold backward. apply tame_bind; [apply tame_emit, good_backward|intros _].
    apply tame_quiet. intros w. cbn. destruct (w_grad_enabled w) eqn:E; cbn; split; auto. }
  intros _.
  unfold step. apply tame_bind; [apply tame_emit, good_step|intros _].
  apply tame_quiet. intros w. destruct (adam_step _ _ _ _ _). now split.
Qed.

Lemma tame_evaluate_model_plain (loader : list batch) :
  tame good (evaluate_model model criterion loader dev false : M P G O Rng _).
Proof.
  apply tame_evaluate_model; [exact good_to|exact good_forward|discriminate].
Qed.

Lemma tame_run_epoch (train_loader val_loader : DataLoader) (optimizer : Adam)
      (epoch : Z) :
  tame good (run_epoch model criterion randperm grad_loss grad_zero grad_add adam_step
                       train_loader val_loader dev optimizer epoch : M P G O Rng unit).
Proof.
  unfold run_epoch, model_train, train_epoch.
  apply tame_bind; [apply tame_set_training|intros _].
  apply tame_bind.
  { apply tame_bind; [apply tame_iterate|intros batches].
    apply tame_for_each. intros _ b. apply tame_train_batch. }
  intros _.
  apply tame_bind; [apply tame_iterate|intros tb].
  apply tame_bind; [apply tame_evaluate_model_plain|intros [[[tl tp] tr] ta]].
  apply tame_bind; [apply tame_iterate|intros vb].
  apply tame_bind; [apply tame_evaluate_model_plain|intros [[[vl vp] vr] va]].
  apply tame_bind; [apply tame_emit, good_print|intros _].
  apply tame_emit, good_print.
Qed.

(** What [main] does once the device is chosen. *)
Lemma tame_main_on_device (args : namespace) (train_loader val_loader test_loader
                                                            : DataLoader) :
  tame good
    (bind (init_model get_model 2 dev) (fun _ =>
     bind (emit (EvPrint MsgModelInitialized)) (fun _ =>
     bind (emit (EvPrint MsgModel)) (fun _ =>
     bind (emit (EvTo dev)) (fun _ =>
     bind (bind (getattr args "learning_rate") (@as_float P G O Rng))
          (fun learning_rate =>
     bind (bind (getattr args "decay_rate") (@as_float P G O Rng))
          (fun decay_rate =>
     bind (new_Adam adam_init learning_rate decay_rate) (fun optimizer =>
     bind (bind (getattr args "epoch") (@as_int P G O Rng)) (fun epochs =>
     bind (for_each
             (fun _ epoch =>
                run_epoch model criterion randperm grad_loss grad_zero grad_add
                          adam_step train_loader val_loader dev optimizer epoch)
             tt (range epochs)) (fun _ =>
     bind (iterate randperm test_loader) (fun test_batches =>
     bind (evaluate_model model criterion test_batches dev false)
          (fun test_metrics =>
             let '(test_loss, test_prec, test_recall, test_acc) := test_metrics in
             emit (EvPrint (MsgTest test_loss test_prec test_recall test_acc)))))))))))))
     : M P G O Rng unit).
Proof.
  apply tame_bind; [apply tame_init_model, good_to|intros _].
  apply tame_bind; [apply tame_emit, good_print|intros _].
  apply tame_bind; [apply tame_emit, good_print|intros _].
  apply tame_bind; [apply tame_emit, good_to|intros _].
  apply tame_bind;
    [apply tame_bind; [apply tame_getattr|apply tame_as_float]|intros learning_rate].
  apply tame_bind;
    [apply tame_bind; [apply tame_getattr|apply tame_as_float]|intros decay_rate].
  apply tame_bind; [apply tame_new_Adam|intros optimizer].
  apply tame_bind;
    [apply tame_bind; [apply tame_getattr|apply tame_as_int]|intros epochs].
  apply tame_bind; [apply tame_for_each; intros; apply tame_run_epoch|intros _].
  apply tame_bind; [apply tame_iterate|intros tb].
  apply tame_bind; [apply tame_evaluate_model_plain|intros [[[l p] r] a]].
  apply tame_emit, good_print.
Qed.

End TameTraining.

Lemma select_device_cpu (args : namespace) (w w1 : world) (dev : device) :
  cuda_is_available = false
  \/ (exists v, lookup "use_cpu" args = Some v /\ truth v = true) ->
  select_device cuda_is_available args w = (Ok dev, w1) ->
  dev = cpu.
Proof.
  intros Hcpu. unfold select_device.
  destruct cuda_is_available.
  - destruct Hcpu as [|(v & Hv & Ht)]; [discriminate|].
    unfold getattr, bind, of_option. rewrite Hv. cbn. rewrite Ht. cbn.
    now intros H; inversion H.
  - cbn. now intros H; inversion H.
Qed.

(** X12.  When no accelerator is present, or when the [use_cpu]
    attribute is set, nothing in a run of [main] is moved to the
    accelerator: every tensor move of the run, in training and in
    evaluation, goes to the cpu. *)
Theorem main_use_cpu (args : namespace) (w : world) :
  cuda_is_available = false
  \/ (exists v, lookup "use_cpu" args = Some v /\ truth v = true) ->
  exists evs : list event,
    w_log (snd (main model criterion randperm grad_loss grad_zero grad_add adam_init
                     adam_step listdir cuda_is_available Pointnet2dataset get_model
                     args w))
    = w_log w ++ evs
    /\ Forall on_cpu evs.
Proof.
  intros Hcpu.
  apply (fun H : tame on_cpu _ => proj2 (H w)).
  unfold main.
  apply tame_bind; [apply tame_of_option|intros file_names].
  apply tame_bind; [apply tame_getattr|intros num_points].
  apply tame_bind;
    [apply tame_bind; [apply tame_getattr|apply tame_as_int]|intros batch_size].
  apply tame_bind; [apply tame_new_DataLoader|intros train_loader].
  apply tame_bind; [apply tame_new_DataLoader|intros val_loader].
  apply tame_bind; [apply tame_new_DataLoader|intros test_loader].
  apply tame_bind_ok; [apply tame_select_device|intros w0 dev w1 Hdev].
  assert (dev = cpu) by (eapply select_device_cpu; eassumption). subst dev.
  apply tame_main_on_device; cbn; auto.
Qed.

Lemma not_step_steps (evs : list event) :
  Forall not_step evs -> optimizer_steps evs = 0%nat.
Proof.
  induction 1 as [|e r He _ IH]; [reflexivity|].
  unfold optimizer_steps in *. cbn. unfold not_step in He. now rewrite He.
Qed.

Section Counts.

Variable c : nat.

Lemma counts_tame {A : Type} (m : M P G O Rng A) :
  tame not_step m -> counts c 0 m.
Proof.
  intros Hm w Hg. destruct (Hm w) as (Hg' & evs & Hlog & Hgood).
  split; [congruence|]. exists 0%nat. split; [lia|]. split; [|reflexivity].
  rewrite Hlog, optimizer_steps_app, (not_step_steps Hgood). lia.
Qed.

Lemma counts_bind_ok {A B : Type} (n1 n2 : nat) (m : M P G O Rng A)
      (f : A -> M P G O Rng B) :
  counts c n1 m ->
  (forall w a w1, m w = (Ok a, w1) -> counts c n2 (f a)) ->
  counts c (n1 + n2) (bind m f).
Proof.
  intros Hm Hf w Hg. unfold bind.
  destruct (Hm w Hg) as (Hg1 & j1 & Hj1 & Hs1 & Hok1).
  destruct (m w) as [[a|e] w1] eqn:E; cbn [fst snd] in *.
  - destruct (Hf w a w1 E w1 Hg1) as (Hg2 & j2 & Hj2 & Hs2 & Hok2).
    split; [exact Hg2|]. exists (j1 + j2)%nat.
    rewrite (Hok1 a eq_refl) in *.
    split; [lia|]. split; [rewrite Hs2, Hs1; lia|].
    intros b Hb. now rewrite (Hok2 b Hb).
  - split; [exact Hg1|]. exists j1. split; [lia|]. split; [exact Hs1|].
    intros b Hb. discriminate.
Qed.

Lemma counts_bind {A B : Type} (n1 n2 : nat) (m : M P G O Rng A)
      (f : A -> M P G O Rng B) :
  counts c n1 m -> (forall a, counts c n2 (f a)) -> counts c (n1 + n2) (bind m f).
Proof. intros Hm Hf. apply counts_bind_ok; [exact Hm|intros; apply Hf]. Qed.

Lemma counts_eq {A : Type} (n n' : nat) (m : M P G O Rng A) :
  n = n' -> counts c n m -> counts c n' m.
Proof. now intros ->. Qed.

Lemma counts_for_each {A S : Type} (k : nat) (body : S -> A -> M P G O Rng S)
      (xs : list A) :
  (forall s x, counts c k (body s x)) ->
  forall acc, counts c (length xs * k) (for_each body acc xs).
Proof.
  intros Hb. induction xs as [|x r IH]; intros acc; cbn [for_each length].
  - apply (@counts_tame S). apply tame_ret.
  - apply (@counts_eq _ (k + length r * k)); [lia|].
    apply counts_bind; [apply Hb|exact IH].
Qed.

End Counts.

Lemma counts_train_epoch (train_loader : DataLoader) (dev : device) (optimizer : Adam) :
  (0 < dl_batch_size train_loader)%nat ->
  counts ((length (dl_dataset train_loader) + dl_batch_size train_loader - 1)
          / dl_batch_size train_loader) 1
         (train_epoch model criterion randperm grad_loss grad_zero grad_add adam_step
                      train_loader dev optimizer : M P G O Rng unit).
Proof.
  intros Hbs w Hg.
  destruct (iterate_run train_loader w Hbs) as (batches & w1 & Hit & Hlen & Hsame).
  destruct Hsame as (_ & _ & Hg1 & _ & _ & Hlog).
  destruct (train_loop_run dev optimizer batches w1) as (w2 & Hrun & Hg2 & Hsteps);
    [congruence|].
  unfold train_epoch, bind. rewrite Hit, Hrun. cbn [fst snd].
  split; [exact Hg2|]. exists 1%nat. split; [lia|]. split; [|reflexivity].
  rewrite Hsteps, Hlog, Hlen. lia.
Qed.

Lemma counts_run_epoch (train_loader val_loader : DataLoader) (dev : device)
      (optimizer : Adam) (epoch : Z) :
  (0 < dl_batch_size train_loader)%nat ->
  counts ((length (dl_dataset train_loader) + dl_batch_size train_loader - 1)
          / dl_batch_size train_loader) 1
         (run_epoch model criterion randperm grad_loss grad_zero grad_add adam_step
                    train_loader val_loader dev optimizer epoch : M P G O Rng unit).
Proof.
  intros Hbs. unfold run_epoch, model_train.
  apply (@counts_bind _ _ _ 0 1); [apply counts_tame, tame_set_training|intros _].
  apply (@counts_bind _ _ _ 1 0); [now apply counts_train_epoch|intros _].
  apply counts_tame.
  apply tame_bind; [apply tame_iterate|intros tb].
  apply tame_bind;
    [apply tame_evaluate_model; [reflexivity|reflexivity|discriminate]
    |intros [[[tl tp] tr] ta]].
  apply tame_bind; [apply tame_iterate|intros vb].
  apply tame_bind;
    [apply tame_evaluate_model; [reflexivity|reflexivity|discriminate]
    |intros [[[vl vp] vr] va]].
  apply tame_bind; [now apply tame_emit|intros _].
  now apply tame_emit.
Qed.

Lemma new_DataLoader_ok (dataset : list sample) (batch_size : Z) (shuffle : bool)
      (w w1 : world) (dl : DataLoader) :
  new_DataLoader dataset batch_size shuffle w = (Ok dl, w1) ->
  dl = mkDataLoader dataset (Z.to_nat batch_size) shuffle /\ (0 < batch_size)%Z.
Proof.
  unfold new_DataLoader. destruct (Z.leb_spec batch_size 0) as [Hle|Hlt]; [discriminate|].
  destruct (shuffle && Nat.eqb (length dataset) 0); [discriminate|].
  intros Heq; inversion Heq. now split.
Qed.

Lemma ceil_div_nat (n : nat) (b : Z) :
  (0 < b)%Z ->
  Z.of_nat ((n + Z.to_nat b - 1) / Z.to_nat b) = ceil_div (Z.of_nat n) b.
Proof.
  intros Hb. unfold ceil_div.
  rewrite Nat2Z.inj_div, Nat2Z.inj_sub, Nat2Z.inj_add, Z2Nat.id by lia.
  reflexivity.
Qed.

Lemma length_range (n : Z) : length (range n) = Z.to_nat n.
Proof. unfold range. now rewrite length_map, length_seq. Qed.

Lemma main_counts (args : namespace) (files : list string) (np : value) (B e : Z) :
  listdir "2023_RCSE_Centerline" = Some files ->
  lookup "num_points" args = Some np ->
  lookup "batch_size" args = Some (VInt B) ->
  lookup "epoch" args = Some (VInt e) ->
  counts ((length (Pointnet2dataset "2023_RCSE_Centerline" files np true "train")
           + Z.to_nat B - 1) / Z.to_nat B)
         (Z.to_nat e)
         (main model criterion randperm grad_loss grad_zero grad_add adam_init
               adam_step listdir cuda_is_available Pointnet2dataset get_model args
          : M P G O Rng unit).
Proof.
  intros Hdir Hnp HB He. unfold main, getattr. rewrite Hdir, Hnp, HB, He.
  cbn [of_option].
  change (bind (ret files) ?f) with (f files). cbn beta.
  change (bind (ret np) ?f) with (f np). cbn beta.
  change (bind (bind (ret (VInt B)) (@as_int _ _ _ _)) ?f) with (f B). cbn beta.
  eapply counts_eq; cycle 1.
  - apply (@counts_bind_ok _ _ _ 0 (Z.to_nat e));
      [apply counts_tame, tame_new_DataLoader|intros w0 train_loader w1 Htl].
    apply new_DataLoader_ok in Htl as [-> HBpos].
    apply (@counts_bind _ _ _ 0 (Z.to_nat e));
      [apply counts_tame, tame_new_DataLoader|intros val_loader].
    apply (@counts_bind _ _ _ 0 (Z.to_nat e));
      [apply counts_tame, tame_new_DataLoader|intros test_loader].
    apply (@counts_bind _ _ _ 0 (Z.to_nat e));
      [apply counts_tame, tame_select_device|intros dev].
    apply (@counts_bind _ _ _ 0 (Z.to_nat e));
      [apply counts_tame, tame_init_model; reflexivity|intros _].
    apply (@counts_bind _ _ _ 0 (Z.to_nat e));
      [apply counts_tame; now apply tame_emit|intros _].
    apply (@counts_bind _ _ _ 0 (Z.to_nat e));
      [apply counts_tame; now apply tame_emit|intros _].
    apply (@counts_bind _ _ _ 0 (Z.to_nat e));
      [apply counts_tame; now apply tame_emit|intros _].
    apply (@counts_bind _ _ _ 0 (Z.to_nat e));
      [apply counts_tame, tame_bind; [apply tame_getattr|apply tame_as_float]
      |intros learning_rate].
    apply (@counts_bind _ _ _ 0 (Z.to_nat e));
      [apply counts_tame, tame_bind; [apply tame_getattr|apply tame_as_float]
      |intros decay_rate].
    apply (@counts_bind _ _ _ 0 (Z.to_nat e));
      [apply counts_tame, tame_new_Adam|intros optimizer].
    change (bind (bind (ret (VInt e)) (@as_int _ _ _ _)) ?f) with (f e). cbn beta.
    apply (@counts_eq _ _ (length (range e) * 1 + 0));
      [rewrite length_range; lia|].
    apply counts_bind.
    + apply counts_for_each. intros _ epoch. apply counts_run_epoch. cbn. lia.
    + intros _. apply counts_tame.
      apply tame_bind; [apply tame_iterate|intros tb].
      apply tame_bind;
        [apply tame_evaluate_model; [reflexivity|reflexivity|discriminate]
        |intros [[[l p] r] a]].
      now apply tame_emit.
  - reflexivity.
Qed.

(** X13.  With gradient tracking on at the start and a positive batch
    size, a run of [main] over a training set of [N] samples calls
    [optimizer.step()] ceil (N / batch_size) times in every epoch it
    trains: [j * ceil (N / batch_size)] times in all for some
    [j <= epoch], and [epoch * ceil (N / batch_size)] times when the
    run returns. *)
Theorem main_optimizer_steps (args : namespace) (files : list string) (np : value)
        (B e : Z) (w : world) :
  listdir "2023_RCSE_Centerline" = Some files ->
  lookup "num_points" args = Some np ->
  lookup "batch_size" args = Some (VInt B) ->
  lookup "epoch" args = Some (VInt e) ->
  (0 < B)%Z ->
  w_grad_enabled w = true ->
  let N := length (Pointnet2dataset "2023_RCSE_Centerline" files np true "train") in
  let run := main model criterion randperm grad_loss grad_zero grad_add adam_init
                  adam_step listdir cuda_is_available Pointnet2dataset get_model
                  args w in
  exists j : nat,
    (j <= Z.to_nat e)%nat
    /\ Z.of_nat (optimizer_steps (w_log (snd run)))
       = (Z.of_nat (optimizer_steps (w_log w))
          + Z.of_nat j * ceil_div (Z.of_nat N) B)%Z
    /\ (fst run = Ok tt -> j = Z.to_nat e).
Proof.
  intros Hdir Hnp HB He HBpos Hg N run.
  destruct (main_counts args Hdir Hnp HB He w Hg) as (_ & j & Hj & Hs & Hok).
  exists j. split; [exact Hj|]. split; [|apply Hok].
  subst run N. rewrite Hs, Nat2Z.inj_add, Nat2Z.inj_mul, ceil_div_nat by exact HBpos.
  reflexivity.
Qed.

Lemma bind_ok_inv {A B : Type} (m : M P G O Rng A) (f : A -> M P G O Rng B)
      (w : world) (b : B) :
  fst (bind m f w) = Ok b ->
  exists a w1, m w = (Ok a, w1) /\ fst (f a w1) = Ok b.
Proof.
  unfold bind. destruct (m w) as [[a|e] w1]; [|discriminate].
  intros H. now exists a, w1.
Qed.

Lemma iterate_empty (dl : DataLoader) (w w1 : world) (batches : list batch) :
  dl_dataset dl = [] ->
  iterate randperm dl w = (Ok batches, w1) ->
  batches = [].
Proof.
  intros Hds. unfold iterate. unfold bind at 1.
  destruct (sampler_run dl w) as (indices & w' & Hs & Hperm & _).
  rewrite Hs. rewrite Hds in Hperm. cbn in Hperm.
  apply Permutation_sym, Permutation_nil in Hperm. subst indices.
  cbn. now intros H; inversion H.
Qed.

(** X14.  An epoch cannot complete on an empty validation view: the
    validation pass has no batch, so its mean loss divides by zero and
    [run_epoch] raises (after the training pass and the evaluation of
    the training view, when these go through). *)
Theorem run_epoch_empty_validation (train_loader val_loader : DataLoader)
        (dev : device) (optimizer : Adam) (epoch : Z) (w : world) :
  dl_dataset val_loader = [] ->
  fst (run_epoch model criterion randperm grad_loss grad_zero grad_add adam_step
                 train_loader val_loader dev optimizer epoch w)
  <> Ok tt.
Proof.
  intros Hval Hok. unfold run_epoch in Hok.
  apply bind_ok_inv in Hok as (_ & w1 & _ & Hok).
  apply bind_ok_inv in Hok as (_ & w2 & _ & Hok).
  apply bind_ok_inv in Hok as (tb & w3 & _ & Hok).
  apply bind_ok_inv in Hok as (tm & w4 & _ & Hok).
  apply bind_ok_inv in Hok as (vb & w5 & Hvb & Hok).
  apply bind_ok_inv in Hok as (vm & w6 & Hvm & _).
  assert (vb = []) by (eapply iterate_empty; eassumption). subst vb.
  cbn in Hvm. discriminate.
Qed.

(** X15.  [main] fails on a batch size that is not positive before
    it builds the network: the first loader refuses it with
    [ValueError], and the state of the process is as it was: no
    parameter drawn, no optimizer made, no line printed, no event
    logged. *)
Theorem main_rejects_batch_size (args : namespace) (files : list string) (np : value)
        (B : Z) (w : world) :
  listdir "2023_RCSE_Centerline" = Some files ->
  lookup "num_points" args = Some np ->
  lookup "batch_size" args = Some (VInt B) ->
  (B <= 0)%Z ->
  main model criterion randperm grad_loss grad_zero grad_add adam_init adam_step
       listdir cuda_is_available Pointnet2dataset get_model args w
  = (Raise ValueError, w).
Proof.
  intros Hdir Hnp HB Hle. unfold main, getattr. rewrite Hdir, Hnp, HB.
  cbn [of_option].
  change (bind (ret files) ?f) with (f files). cbn beta.
  change (bind (ret np) ?f) with (f np). cbn beta.
  change (bind (bind (ret (VInt B)) (@as_int _ _ _ _)) ?f) with (f B). cbn beta.
  unfold bind at 1. unfold new_DataLoader at 1.
  destruct (Z.leb_spec B 0); [reflexivity|lia].
Qed.

(** X16.  A run of [main] cannot return when the test view is empty:
    the final evaluation has no batch and divides by zero. *)
Theorem main_empty_test_set (args : namespace) (files : list string) (np : value)
        (w : world) :
  listdir "2023_RCSE_Centerline" = Some files ->
  lookup "num_points" args = Some np ->
  Pointnet2dataset "2023_RCSE_Centerline" files np false "test" = [] ->
  fst (main model criterion randperm grad_loss grad_zero grad_add adam_init adam_step
            listdir cuda_is_available Pointnet2dataset get_model args w)
  <> Ok tt.
Proof.
  intros Hdir Hnp Hempty Hok. unfold main, getattr in Hok.
  rewrite Hdir, Hnp in Hok. cbn [of_option] in Hok.
  change (bind (ret files) ?f) with (f files) in Hok. cbn beta in Hok.
  change (bind (ret np) ?f) with (f np) in Hok. cbn beta in Hok.
  apply bind_ok_inv in Hok as (B & w1 & _ & Hok).
  apply bind_ok_inv in Hok as (train_loader & w2 & _ & Hok).
  apply bind_ok_inv in Hok as (val_loader & w3 & _ & Hok).
  apply bind_ok_inv in Hok as (test_loader & w4 & Htest & Hok).
  apply new_DataLoader_ok in Htest as [-> _].
  apply bind_ok_inv in Hok as (dev & w5 & _ & Hok).
  apply bind_ok_inv in Hok as (_ & w6 & _ & Hok).
  apply bind_ok_inv in Hok as (_ & w7 & _ & Hok).
  apply bind_ok_inv in Hok as (_ & w8 & _ & Hok).
  apply bind_ok_inv in Hok as (_ & w9 & _ & Hok).
  apply bind_ok_inv in Hok as (learning_rate & w10 & _ & Hok).
  apply bind_ok_inv in Hok as (decay_rate & w11 & _ & Hok).
  apply bind_ok_inv in Hok as (optimizer & w12 & _ & Hok).
  apply bind_ok_inv in Hok as (epochs & w13 & _ & Hok).
  apply bind_ok_inv in Hok as (_ & w14 & _ & Hok).
  apply bind_ok_inv in Hok as (tb & w15 & Htb & Hok).
  apply bind_ok_inv in Hok as (tm & w16 & Htm & _).
  apply iterate_empty in Htb; [|exact Hempty]. subst tb.
  cbn in Htm. discriminate.
Qed.

(** ** Stale gradients *)

Lemma blind_ret {A : Type} (a : A) : grads_blind (ret a : M P G O Rng A).
Proof. intros g w. reflexivity. Qed.

Lemma blind_of_option {A : Type} (e : exn) (o : option A) :
  grads_blind (of_option e o : M P G O Rng A).
Proof. intros g w. now destruct o. Qed.

Lemma blind_bind {A B : Type} (m : M P G O Rng A) (f : A -> M P G O Rng B) :
  grads_blind m -> (forall a, grads_blind (f a)) -> grads_blind (bind m f).
Proof.
  intros Hm Hf g w. unfold bind. rewrite Hm.
  destruct (m w) as [[a|e] w1]; cbn [fst snd]; [apply Hf|reflexivity].
Qed.

Lemma blind_for_each {A S : Type} (body : S -> A -> M P G O Rng S) (xs : list A) :
  (forall s x, grads_blind (body s x)) ->
  forall acc, grads_blind (for_each body acc xs).
Proof.
  intros Hb. induction xs as [|x r IH]; intros acc; cbn [for_each].
  - apply blind_ret.
  - apply blind_bind; [apply Hb|exact IH].
Qed.

Lemma blind_iterate (dl : DataLoader) :
  grads_blind (iterate randperm dl : M P G O Rng (list batch)).
Proof.
  unfold iterate. apply blind_bind.
  - intros g w. unfold sampler. destruct (dl_shuffle dl); [|reflexivity].
    cbn. now destruct (randperm (w_rng w) (length (dl_dataset dl))).
  - intros indices. apply blind_for_each. intros acc group. unfold fetch.
    apply blind_bind; [|intros; apply blind_ret].
    apply blind_bind; [apply blind_of_option|intros; apply blind_ret].
Qed.

Lemma train_batch_with_grads (dev : device) (optimizer : Adam) (b : batch) (g : G)
      (w : world) :
  train_batch model criterion grad_loss grad_zero grad_add adam_step dev optimizer b
              (with_grads g w)
  = train_batch model criterion grad_loss grad_zero grad_add adam_step dev optimizer b w.
Proof.
  unfold train_batch, bind, to, zero_grad, call_model, backward, step, emit, ret,
    with_grads.
  cbn. now destruct (w_grad_enabled w).
Qed.

(** X9.  A pass of the training loop over a loader that yields at
    least one batch does not depend on the gradient that is stored when
    it starts: [zero_grad] comes before [backward] in every step, so
    from two states that differ only in the stored gradient the pass
    gives the same result and the same final state (parameters,
    optimizer state, gradient, generators and log). *)
Theorem train_epoch_ignores_stale_gradient (train_loader : DataLoader) (dev : device)
        (optimizer : Adam) (g : G) (w : world) :
  dl_dataset train_loader <> [] ->
  (0 < dl_batch_size train_loader)%nat ->
  train_epoch model criterion randperm grad_loss grad_zero grad_add adam_step
              train_loader dev optimizer (with_grads g w)
  = train_epoch model criterion randperm grad_loss grad_zero grad_add adam_step
                train_loader dev optimizer w.
Proof.
  intros Hne Hbs. unfold train_epoch, bind.
  rewrite (blind_iterate train_loader g w).
  destruct (iterate_run train_loader w Hbs) as (batches & w1 & Hit & Hlen & _).
  rewrite Hit. cbn [fst snd].
  destruct batches as [|b rest].
  - exfalso. cbn [length] in Hlen. symmetry in Hlen.
    apply Nat.div_small_iff in Hlen; [|lia].
    destruct (dl_dataset train_loader); [congruence|cbn [length] in Hlen; lia].
  - cbn [for_each]. unfold bind. now rewrite train_batch_with_grads.
Qed.

End Properties.

(** ** parse_args *)


Lemma lookup_setattr_other (k name : string) (v : value) (ns : namespace) :
  k <> name -> lookup name (setattr k v ns) = lookup name ns.
Proof.
  intros Hne. induction ns as [|[k0 v0] r IH]; cbn.
  - destruct (String.eqb_spec k name); [contradiction|reflexivity].
  - destruct (String.eqb_spec k0 k) as [->|Hk]; cbn.
    + destruct (String.eqb_spec k name); [contradiction|reflexivity].
    + now rewrite IH.
Qed.



Lemma declared_flag_resolves (a : argument) :
  In a parser -> resolve parser (arg_flag a) = Found a None.
Proof.
  unfold parser. cbn [In]. intros Ha.
  repeat match goal with
         | H : _ \/ _ |- _ => destruct H as [<-|H]
         | H : False |- _ => destruct H
         end; reflexivity.
Qed.

Section ParserProperties.

Variable int : string -> option Z.
Variable float : string -> option Q.




Lemma parse_known_app (n : nat) :
  forall (argv1 argv2 : list string) (ns0 ns1 : namespace),
    (length argv1 <= n)%nat ->
    parse_known int float parser argv1 ns0 = Ok ns1 ->
    parse_known int float parser (argv1 ++ argv2) ns0
    = parse_known int float parser argv2 ns1.
Proof.
  induction n as [|n IH]; intros argv1 argv2 ns0 ns1 Hlen Hrun.
  - destruct argv1; [|cbn in Hlen; lia]. cbn in Hrun. now inversion Hrun; subst.
  - destruct argv1 as [|tok rest]; [cbn in Hrun; now inversion Hrun; subst|].
    cbn [parse_known app] in *. cbn [length] in Hlen.
    destruct (resolve parser tok) as [a e| |]; try discriminate.
    destruct (arg_action a) as [ty|]; destruct e as [s|]; try discriminate.
    + destruct (convert int float ty s) as [v|]; [|discriminate].
      apply IH; [lia|exact Hrun].
    + destruct rest as [|s rest']; [discriminate|]. cbn [app].
      destruct (is_value s); [|discriminate].
      destruct (convert int float ty s) as [v|]; [|discriminate].
      apply IH; [cbn in Hlen; lia|exact Hrun].
    + apply IH; [lia|exact Hrun].
Qed.



(** ** Further properties of parse_args *)








(** X18.  Options are read from left to right, each on top of what the
    options before it left: a command line that is accepted can be
    extended, and parsing the extension starts from the table that the
    accepted part gives. *)
Theorem parse_args_app (argv1 argv2 : list string) (ns1 : namespace) :
  parse_args int float argv1 = Ok ns1 ->
  parse_args int float (argv1 ++ argv2) = parse_known int float parser argv2 ns1.
Proof.
  intros H. exact (@parse_known_app (length argv1) argv1 argv2 _ ns1 (Nat.le_refl _) H).
Qed.


(** X20.  After any accepted command line, these continuations make
    the parser exit instead of returning settings: a token that names
    no declared option, the help option, a value-taking option given
    last without its value, and a value that does not convert. *)
Theorem parse_args_exits (argv : list string) (ns : namespace) :
  parse_args int float argv = Ok ns ->
  (forall tok rest,
      resolve parser tok = Rejected \/ resolve parser tok = Help ->
      parse_args int float (argv ++ tok :: rest) = Raise SystemExit)
  /\ (forall a ty,
         In a parser -> arg_action a = store ty ->
         parse_args int float (argv ++ [arg_flag a]) = Raise SystemExit)
  /\ (forall a ty s rest,
         In a parser -> arg_action a = store ty ->
         convert int float ty s = None ->
         parse_args int float (argv ++ arg_flag a :: s :: rest) = Raise SystemExit).
Proof.
  intros Hrun.
  pose proof (fun argv2 =>
                @parse_known_app (length argv) argv argv2 _ ns (Nat.le_refl _) Hrun)
    as Happ.
  split; [|split].
  - intros tok rest [Hr|Hr]; unfold parse_args; rewrite Happ; cbn [parse_known];
      now rewrite Hr.
  - intros a ty Ha Hact. unfold parse_args. rewrite Happ. cbn [parse_known].
    now rewrite (declared_flag_resolves Ha), Hact.
  - intros a ty s rest Ha Hact Hconv. unfold parse_args. rewrite Happ.
    cbn [parse_known]. rewrite (declared_flag_resolves Ha), Hact, Hconv.
    now destruct (is_value s).
Qed.

End ParserProperties.

(** ** The properties on the concrete instance *)

Lemma Toy_randperm_permutation (g : nat) (n : nat) :
  Permutation (fst (Toy.randperm g n)) (seq 0 n).
Proof. cbn. apply Permutation_sym, Permutation_rev. Qed.


(** C7: the claim as stated fails.  Over a loader with one batch, with
    a loss function that is negative on that batch, [evaluate_model]
    returns a negative loss. *)
Lemma evaluate_model_negative_loss :
  Toy.loader1 <> []
  /\ exists (loss : Q) (precision recall accuracy : number) (w' : world Z Z nat nat),
       evaluate_model Toy.model Toy.negative_criterion Toy.loader1 cpu false Toy.w0
       = (Ok (loss, precision, recall, accuracy), w')
       /\ ~ 0 <= loss.
Proof.
  split; [discriminate|].
  eexists _, _, _, _, _. split; [reflexivity|].
  intros H. vm_compute in H. now apply H.
Qed.

(** *** Instances of the conditional statements *)


Lemma evaluate_model_perfect_witness :
  exists (loss precision recall accuracy : Q) (w' : world Z Z nat nat),
    evaluate_model Toy.model Toy.criterion Toy.loader1 cpu false Toy.w0
    = (Ok (loss, Num precision, Num recall, Num accuracy), w')
    /\ precision == 1 /\ recall == 1 /\ accuracy == 1.
Proof.
  apply (@evaluate_model_perfect Z Z nat nat unit Toy.model Toy.criterion
           Toy.loader1 cpu Toy.w0 [[[1; 0]; [0; 1]]%Z]).
  - reflexivity.
  - reflexivity.
  - discriminate.
Defined.

Lemma flatten_preserves_count_witness :
  exists (acc : accum) (w' : world Z Z nat nat),
    evaluate_loop Toy.model Toy.criterion Toy.loader1 cpu Toy.w0 = (Ok acc, w')
    /\ length (flatten (all_labels acc)) = (length Toy.loader1 * (2 * 2))%nat
    /\ length (flatten (all_preds acc)) = (length Toy.loader1 * (2 * 2))%nat.
Proof.
  apply (@flatten_preserves_count Z Z nat nat unit Toy.model Toy.criterion
           Toy.loader1 cpu Toy.w0 2%nat 2%nat).
  intros x [<-|[]]. split.
  - split; [reflexivity|]. repeat constructor.
  - split; [split; [reflexivity|repeat constructor]|].
    repeat constructor; discriminate.
Defined.

Lemma evaluate_model_ranges_witness :
  exists (precision recall accuracy : Q) (w' : world Z Z nat nat),
    evaluate_model Toy.model Toy.criterion Toy.loader1 cpu false Toy.w0
    = (Ok (Qsum (pass_losses Toy.model Toy.criterion 0%Z false Toy.loader1)
           / Qlen (pass_losses Toy.model Toy.criterion 0%Z false Toy.loader1),
           Num precision, Num recall, Num accuracy), w')
    /\ 0 <= precision <= 1 /\ 0 <= recall <= 1 /\ 0 <= accuracy <= 1
    /\ 0 <= Qsum (pass_losses Toy.model Toy.criterion 0%Z false Toy.loader1)
            / Qlen (pass_losses Toy.model Toy.criterion 0%Z false Toy.loader1).
Proof.
  destruct (@evaluate_model_ranges Z Z nat nat unit Toy.model Toy.criterion
              Toy.loader1 cpu Toy.w0 [[[1; 0]; [0; 1]]%Z]
              eq_refl eq_refl ltac:(discriminate))
    as (p & r & a & w' & E & Hp & Hr & Ha & Hloss).
  exists p, r, a, w'. repeat split; try apply Hp; try apply Hr; try apply Ha.
  - exact E.
  - apply Hloss. repeat constructor. discriminate.
Defined.

Lemma train_epoch_optimizer_steps_witness :
  exists w' : world Z Z nat nat,
    train_epoch Toy.model Toy.criterion Toy.randperm Toy.grad_loss 0%Z Z.add
                Toy.adam_step (mkDataLoader Toy.dataset 2 true) cpu
                (mkAdam (1 # 1000) (1 # 10000)) Toy.w0
    = (Ok tt, w')
    /\ Z.of_nat (optimizer_steps (w_log w'))
       = (Z.of_nat (optimizer_steps (w_log Toy.w0))
          + ceil_div (Z.of_nat (length Toy.dataset)) 2)%Z.
Proof.
  apply (@train_epoch_optimizer_steps Z Z nat nat unit Toy.model Toy.criterion
           Toy.randperm Toy_randperm_permutation Toy.grad_loss 0%Z Z.add
           Toy.adam_step Toy.dataset 2%Z true cpu (mkAdam (1 # 1000) (1 # 10000))
           Toy.w0 Toy.w0 (mkDataLoader Toy.dataset 2 true)).
  - reflexivity.
  - reflexivity.
Defined.

Lemma main_ignores_unused_options_witness :
  main Toy.model Toy.criterion Toy.randperm Toy.grad_loss 0%Z Z.add 0%nat
       Toy.adam_step Toy.listdir false Toy.Pointnet2dataset Toy.get_model
       (defaults parser) Toy.w0
  = main Toy.model Toy.criterion Toy.randperm Toy.grad_loss 0%Z Z.add 0%nat
         Toy.adam_step Toy.listdir false Toy.Pointnet2dataset Toy.get_model
         (setattr "optimizer" (VStr "SGD") (defaults parser)) Toy.w0.
Proof.
  apply (@main_ignores_unused_options Z Z nat nat unit Toy.model Toy.criterion
           Toy.randperm Toy.grad_loss 0%Z Z.add Toy.adam_step 0%nat
           Toy.listdir false Toy.Pointnet2dataset Toy.get_model
           (defaults parser) (setattr "optimizer" (VStr "SGD") (defaults parser))
           Toy.w0).
  intros name Hn. symmetry. apply lookup_setattr_other.
  intros <-. apply Hn. cbn. tauto.
Defined.


(** *** Instances of the further conditional statements *)

Lemma evaluate_model_empty_class_dimension_witness :
  fst (evaluate_model Toy.classless_model Toy.criterion Toy.loader1 cpu false Toy.w0)
  = Raise IndexError.
Proof.
  apply evaluate_model_empty_class_dimension. reflexivity.
Defined.

Lemma evaluate_model_length_mismatch_witness :
  fst (evaluate_model Toy.model Toy.criterion Toy.ragged_loader cpu false Toy.w0)
  = Raise ValueError.
Proof.
  apply evaluate_model_length_mismatch with (preds := [[[1; 0]]]%Z).
  - reflexivity.
  - discriminate.
Defined.

Lemma evaluate_model_visualize_observational_witness :
  exists (metrics : Q * number * number * number) (w' : world Z Z nat nat),
    evaluate_model Toy.model Toy.criterion Toy.single_loader cpu true Toy.w0
    = (Ok metrics, w')
    /\ exists (w'' : world Z Z nat nat) (plots : list event),
         evaluate_model Toy.model Toy.criterion Toy.single_loader cpu false Toy.w0
         = (Ok metrics, w'')
         /\ w' = logged w'' plots.
Proof.
  assert (H : exists metrics,
             fst (evaluate_model Toy.model Toy.criterion Toy.single_loader cpu true
                                 Toy.w0)
             = Ok metrics) by (eexists; reflexivity).
  destruct H as [metrics Hm].
  exists metrics,
    (snd (evaluate_model Toy.model Toy.criterion Toy.single_loader cpu true Toy.w0)).
  assert (E : evaluate_model Toy.model Toy.criterion Toy.single_loader cpu true Toy.w0
              = (Ok metrics,
                 snd (evaluate_model Toy.model Toy.criterion Toy.single_loader cpu true
                                     Toy.w0)))
    by (rewrite <- Hm; apply surjective_pairing).
  split; [exact E|].
  apply (@evaluate_model_visualize_observational Z Z nat nat unit Toy.model
           Toy.criterion Toy.single_loader cpu Toy.w0 _ _ E).
Defined.

Lemma visualize_predictions_run_witness :
  exists evs,
    visualize_predictions [[Toy.pt 2; Toy.pt (-1)]; [Toy.pt (-3); Toy.pt 4]]
                          [CArray [1; 0]; CArray [0; 1]]%Z
                          [CArray [1; 0]; CArray [1; 1]]%Z Toy.w0
    = (Ok tt, logged Toy.w0 evs)
    /\ scatter_colours evs
       = [CArray [1; 0]; CArray [1; 0]; CArray [0; 1]; CArray [1; 1]]%Z
    /\ windows evs = 2%nat.
Proof.
  apply (@visualize_predictions_run Z Z nat nat
           [[Toy.pt 2; Toy.pt (-1)]; [Toy.pt (-3); Toy.pt 4]]
           [CArray [1; 0]; CArray [0; 1]]%Z [CArray [1; 0]; CArray [1; 1]]%Z
           (CScalar 0%Z) Toy.w0).
  - cbn. lia.
  - cbn. lia.
  - repeat constructor; cbn; lia.
  - intros [|[|i]] pc c Hpc Hc; cbn in Hpc, Hc;
      [inversion Hpc; inversion Hc; reflexivity
      |inversion Hpc; inversion Hc; reflexivity
      |destruct i; discriminate].
  - intros [|[|i]] pc c Hpc Hc; cbn in Hpc, Hc;
      [inversion Hpc; inversion Hc; reflexivity
      |inversion Hpc; inversion Hc; reflexivity
      |destruct i; discriminate].
Defined.

Lemma visualize_predictions_index_error_witness :
  fst (visualize_predictions [[Toy.pt 2; Toy.pt (-1)]; [Toy.pt (-3); Toy.pt 4]]
                             [CArray [1; 0]]%Z
                             [CArray [1; 0]; CArray [1; 1]]%Z Toy.w0)
  = Raise IndexError.
Proof.
  apply visualize_predictions_index_error.
  - intros [|[|i]] pc c Hpc Hc; cbn in Hpc, Hc;
      [inversion Hpc; inversion Hc; reflexivity
      |discriminate
      |destruct i; discriminate].
  - intros [|[|i]] pc c Hpc Hc; cbn in Hpc, Hc;
      [inversion Hpc; inversion Hc; reflexivity
      |inversion Hpc; inversion Hc; reflexivity
      |destruct i; discriminate].
  - intros (H & _). cbn in H. lia.
Defined.

Lemma evaluate_model_visualize_windows_witness :
  exists (metrics : Q * number * number * number) (plots : list event),
    evaluate_model Toy.model Toy.criterion Toy.single_loader cpu true Toy.w0
    = (Ok metrics, logged (evaluated Toy.w0 cpu Toy.single_loader) plots)
    /\ colours_accepted (flat_map fst Toy.single_loader) [CScalar 1; CScalar 0]%Z
    /\ colours_accepted (flat_map fst Toy.single_loader) [CScalar 1; CScalar 0]%Z
    /\ windows plots = 2%nat
    /\ scatter_colours plots = [CScalar 1; CScalar 1; CScalar 0; CScalar 0]%Z.
Proof.
  apply (@evaluate_model_visualize_windows Z Z nat nat unit Toy.model Toy.criterion
           Toy.single_loader cpu Toy.w0 [[[1]; [0]]]%Z).
  - discriminate.
  - reflexivity.
  - reflexivity.
  - cbn. lia.
  - repeat constructor; cbn; lia.
  - repeat constructor.
Defined.

Lemma train_epoch_ignores_stale_gradient_witness :
  train_epoch Toy.model Toy.criterion Toy.randperm Toy.grad_loss 0%Z Z.add
              Toy.adam_step (mkDataLoader Toy.dataset 2 true) cpu
              (mkAdam (1 # 1000) (1 # 10000)) (with_grads 7%Z Toy.w0)
  = train_epoch Toy.model Toy.criterion Toy.randperm Toy.grad_loss 0%Z Z.add
                Toy.adam_step (mkDataLoader Toy.dataset 2 true) cpu
                (mkAdam (1 # 1000) (1 # 10000)) Toy.w0.
Proof.
  apply (@train_epoch_ignores_stale_gradient Z Z nat nat unit Toy.model Toy.criterion
           Toy.randperm Toy_randperm_permutation Toy.grad_loss 0%Z Z.add Toy.adam_step
           (mkDataLoader Toy.dataset 2 true) cpu (mkAdam (1 # 1000) (1 # 10000))
           7%Z Toy.w0).
  - discriminate.
  - cbn. lia.
Defined.

Lemma train_epoch_visits_each_sample_once_witness :
  exists (w' : world Z Z nat nat) (evs : list event),
    train_epoch Toy.model Toy.criterion Toy.randperm Toy.grad_loss 0%Z Z.add
                Toy.adam_step (mkDataLoader Toy.dataset 2 true) cpu
                (mkAdam (1 # 1000) (1 # 10000)) Toy.w0
    = (Ok tt, w')
    /\ w_log w' = w_log Toy.w0 ++ evs
    /\ Permutation (forward_inputs evs) (map fst Toy.dataset)
    /\ (true = false -> forward_inputs evs = map fst Toy.dataset).
Proof.
  apply (@train_epoch_visits_each_sample_once Z Z nat nat unit Toy.model Toy.criterion
           Toy.randperm Toy_randperm_permutation Toy.grad_loss 0%Z Z.add Toy.adam_step
           (mkDataLoader Toy.dataset 2 true) cpu (mkAdam (1 # 1000) (1 # 10000)) Toy.w0).
  reflexivity.
Defined.

Lemma main_use_cpu_witness :
  exists evs : list event,
    w_log (snd (main Toy.model Toy.criterion Toy.randperm Toy.grad_loss 0%Z Z.add
                     0%nat Toy.adam_step Toy.listdir false Toy.Pointnet2dataset
                     Toy.get_model Toy.short_run Toy.w0))
    = w_log Toy.w0 ++ evs
    /\ Forall on_cpu evs.
Proof.
  apply main_use_cpu. now left.
Defined.

Lemma main_optimizer_steps_witness :
  exists j : nat,
    (j <= 1)%nat
    /\ Z.of_nat (optimizer_steps
                   (w_log (snd (main Toy.model Toy.criterion Toy.randperm Toy.grad_loss
                                     0%Z Z.add 0%nat Toy.adam_step Toy.listdir false
                                     Toy.Pointnet2dataset Toy.get_model
                                     Toy.short_run Toy.w0))))
       = (0 + Z.of_nat j * ceil_div 3 2)%Z
    /\ (fst (main Toy.model Toy.criterion Toy.randperm Toy.grad_loss 0%Z Z.add 0%nat
                  Toy.adam_step Toy.listdir false Toy.Pointnet2dataset Toy.get_model
                  Toy.short_run Toy.w0)
        = Ok tt -> j = 1%nat).
Proof.
  apply (@main_optimizer_steps Z Z nat nat unit Toy.model Toy.criterion Toy.randperm
           Toy_randperm_permutation Toy.grad_loss 0%Z Z.add Toy.adam_step 0%nat
           Toy.listdir false Toy.Pointnet2dataset Toy.get_model Toy.short_run
           ["a.npy"; "b.npy"; "c.npy"]%string (VInt 1024) 2%Z 1%Z Toy.w0).
  - reflexivity.
  - reflexivity.
  - reflexivity.
  - reflexivity.
  - lia.
  - reflexivity.
Defined.

Lemma run_epoch_empty_validation_witness :
  fst (run_epoch Toy.model Toy.criterion Toy.randperm Toy.grad_loss 0%Z Z.add
                 Toy.adam_step (mkDataLoader Toy.dataset 2 true)
                 (mkDataLoader [] 2 false) cpu (mkAdam (1 # 1000) (1 # 10000)) 0%Z
                 Toy.w0)
  <> Ok tt.
Proof.
  apply (@run_epoch_empty_validation Z Z nat nat unit Toy.model Toy.criterion
           Toy.randperm Toy_randperm_permutation).
  reflexivity.
Defined.

Lemma main_rejects_batch_size_witness :
  main Toy.model Toy.criterion Toy.randperm Toy.grad_loss 0%Z Z.add 0%nat
       Toy.adam_step Toy.listdir false Toy.Pointnet2dataset Toy.get_model
       (setattr "batch_size" (VInt 0) (defaults parser)) Toy.w0
  = (Raise ValueError, Toy.w0).
Proof.
  apply main_rejects_batch_size
    with (files := ["a.npy"; "b.npy"; "c.npy"]%string) (np := VInt 1024) (B := 0%Z).
  - reflexivity.
  - reflexivity.
  - reflexivity.
  - lia.
Defined.

Lemma main_empty_test_set_witness :
  fst (main Toy.model Toy.criterion Toy.randperm Toy.grad_loss 0%Z Z.add 0%nat
            Toy.adam_step Toy.listdir false Toy.split_dataset Toy.get_model
            Toy.short_run Toy.w0)
  <> Ok tt.
Proof.
  apply (@main_empty_test_set Z Z nat nat unit Toy.model Toy.criterion Toy.randperm
           Toy_randperm_permutation Toy.grad_loss 0%Z Z.add Toy.adam_step 0%nat
           Toy.listdir false Toy.split_dataset Toy.get_model Toy.short_run
           ["a.npy"; "b.npy"; "c.npy"]%string (VInt 1024) Toy.w0).
  - reflexivity.
  - reflexivity.
  - reflexivity.
Defined.


Lemma parse_args_app_witness :
  parse_args Toy.int Toy.float (["--batch_size"%string; "8"%string] ++ ["--use_cpu"%string])
  = parse_known Toy.int Toy.float parser ["--use_cpu"]%string
                (setattr "batch_size" (VInt 8) (defaults parser)).
Proof.
  apply parse_args_app. reflexivity.
Defined.


Lemma parse_args_exits_witness :
  parse_args Toy.int Toy.float (["--batch_size"%string; "8"%string] ++ ["--epoch"%string])
  = Raise SystemExit.
Proof.
  destruct (@parse_args_exits Toy.int Toy.float ["--batch_size"; "8"]%string
              (setattr "batch_size" (VInt 8) (defaults parser)) eq_refl)
    as (_ & H & _).
  apply (H (add_argument "--epoch" (store type_int) (VInt 100)) type_int).
  - cbn. tauto.
  - reflexivity.
Defined.
